(** * FAQ helpdesk service: vector index, metadata and consistency check

    A shallow embedding of [app/services/embedding.py] (class
    [EmbeddingModel]) and of the handlers [query], [check_and_reindex] /
    [perform_check] and [get_consistency_status] of [app/api/endpoints.py],
    followed by the properties of the index / metadata pair.

    Conventions of the embedding.
    - Python [int] is [Z]; [str] is [string]; [float] is the binary64
      [float] of [PrimFloat], compared with [PrimFloat.leb] / [PrimFloat.ltb]
      exactly as Python's [>=] / [>] compare doubles.  A value that pydantic
      leaves optional ([Optional[float]], [Optional[int]]) is an [option].
    - [self.metadata["faqs"]] is a Python [dict]: insertion ordered, one
      value per key, assignment to a present key keeps the key's place.  It
      is an association list ([PyDict]) because the loops that look for a FAQ
      id stop at the first hit in iteration order.  Its keys are the strings
      [str(idx)] of integers; the code only ever builds them with [str] and
      reads them back with [int], so the model keys the dictionary by the
      integer itself.
    - [self.index] is a [faiss.IndexFlatIP]: the vectors in position order.
      FAISS is a library, not code of this repository; [Faiss] below states
      the behaviour of the three calls the service makes ([add],
      [remove_ids], [search]).
    - The tokenizer / transformer behind [generate_embedding] and the inner
      product of two embeddings are parameters of the development.
    - [datetime.now().isoformat()] is an input: every operation that saves
      takes the clock reading it will see.
    - [save_index] catches and logs the errors of its two writes; the model
      takes the writes to succeed and records what was written. *)

From Stdlib Require Import ZArith String PrimFloat.
From Stdlib Require SpecFloat FloatOps FloatAxioms.
From stdpp Require Import base tactics list gmap sorting.
From stdpp Require pretty.

Local Open Scope Z_scope.
Local Open Scope string_scope.
Local Open Scope list_scope.

(** ** Python dictionaries keyed by integers *)

Module PyDict.
Section dict.
Context {V : Type}.

(** [d[k]], [None] standing for [KeyError] / absence. *)
Fixpoint get (k : Z) (d : list (Z * V)) : option V :=
  match d with
  | [] => None
  | (k', v) :: d' => if Z.eqb k k' then Some v else get k d'
  end.

(** [d[k] = v]: replaces in place when [k] is present, appends otherwise. *)
Fixpoint set (k : Z) (v : V) (d : list (Z * V)) : list (Z * V) :=
  match d with
  | [] => [(k, v)]
  | (k', v') :: d' =>
      if Z.eqb k k' then (k, v) :: d' else (k', v') :: set k v d'
  end.

Definition keys (d : list (Z * V)) : list Z := d.*1.

(** Two keys of a dictionary are never equal. *)
Definition wf (d : list (Z * V)) : Prop := NoDup (keys d).
End dict.
End PyDict.

(** ** The FAISS flat inner-product index *)

Module Faiss.
Section index.
Context {vec : Type}.
Variable inner_product : vec → vec → float.

Definition ntotal (xb : list vec) : Z := Z.of_nat (length xb).

(** [index.add(x)] for a single row. *)
Definition add (x : vec) (xb : list vec) : list vec := xb ++ [x].

(** [index.remove_ids(ids)]: one pass over the positions, the kept
    vectors are moved down over the removed ones (order preserved).  An id
    that is no position of the index selects nothing. *)
Fixpoint remove_ids_from (pos : Z) (ids : list Z) (xb : list vec) : list vec :=
  match xb with
  | [] => []
  | x :: xb' =>
      if bool_decide (pos ∈ ids)
      then remove_ids_from (pos + 1) ids xb'
      else x :: remove_ids_from (pos + 1) ids xb'
  end.

Definition remove_ids (ids : list Z) (xb : list vec) : list vec :=
  remove_ids_from 0 ids xb.

(** The value FAISS leaves in the distance slot of a missing result
    (the lowest finite float32); the service never reads it. *)
Definition no_score : float := (-0x1.fffffep+127)%float.

Definition scored (q : vec) (xb : list vec) : list (float * Z) :=
  imap (λ i x, (inner_product q x, Z.of_nat i)) xb.

(** Ranking by decreasing score.  FAISS does not promise an order among
    equal scores; the model puts the lower position first and no theorem
    below depends on it. *)
Fixpoint insert_hit (h : float * Z) (hs : list (float * Z)) : list (float * Z) :=
  match hs with
  | [] => [h]
  | h' :: hs' =>
      if PrimFloat.leb h'.1 h.1 then h :: h' :: hs' else h' :: insert_hit h hs'
  end.

Definition rank (hs : list (float * Z)) : list (float * Z) :=
  foldr insert_hit [] hs.

(** [index.search(q, k)] for a single query row and [k >= 1]: always [k]
    slots, the best [min k ntotal] positions first, the rest filled with
    label [-1].  The call starts with [assert k > 0]; [EmbeddingModel.search]
    below, the only caller, carries that assertion. *)
Definition search (q : vec) (k : nat) (xb : list vec) : list (float * Z) :=
  let top := take k (rank (scored q xb)) in
  top ++ replicate (k - length top)%nat (no_score, -1).
End index.
End Faiss.


(** ** Data of the service *)

(** A value of [metadata["faqs"]]: [{"id": .., "question": .., "answer": ..}];
    also the shape of a [FAQItem] and of a record of the Laravel listing. *)
Record FAQItem := {
  id : Z;
  question : string;
  answer : option string
}.

(** [datetime.now().isoformat()]. *)
Definition timestamp := string.

(** The dictionary [result] of [check_and_reindex]; [error] is the key that
    only the exception handler adds. *)
Record CheckResult := {
  status : string;
  faqs_total : Z;
  missing_in_faiss : list Z;
  orphaned_in_faiss : list Z;
  error : option string
}.

(** [self.metadata]: the keys ["faqs"], ["last_updated"] and, when present,
    ["consistency_check"] (a timestamp and a result). *)
Record Metadata := {
  faqs : list (Z * FAQItem);
  last_updated : option timestamp;
  consistency_check : option (timestamp * CheckResult)
}.

(** An element of the list [search] returns. *)
Record SearchResult := {
  sr_id : Z;
  sr_question : string;
  sr_answer : option string;
  sr_similarity : float
}.

(** What a call can raise: a lookup of a key the metadata does not have,
    the [assert k > 0] of [index.search], an order comparison with
    [None]. *)
Inductive exn :=
| KeyError (key : Z)
| AssertionError
| TypeError.

Inductive result (A : Type) :=
| Ok (a : A)
| Raise (e : exn).
Arguments Ok {A} a.
Arguments Raise {A} e.

#[global] Instance result_ret : MRet result := λ A a, Ok a.

#[global] Instance result_bind : MBind result := λ A B k r,
  match r with
  | Ok a => k a
  | Raise e => Raise e
  end.

(** The doubles Python reads from the literals [0.6] (default of
    [QueryInput.threshold]) and [0.8] (default of
    [HIGH_CONFIDENCE_THRESHOLD]). *)
Definition float_0_6 : float := 0x1.3333333333333p-1%float.
Definition float_0_8 : float := 0x1.999999999999ap-1%float.

(** ** [class EmbeddingModel] *)

Section Service.
Context {vec : Type}.
Variable generate_embedding : string → vec.
Variable inner_product : vec → vec → float.

(** The singleton: the index, the metadata, and what [save_index] last wrote
    to [INDEX_PATH] / [METADATA_PATH] ([None]: nothing written yet). *)
Record EmbeddingModel := {
  index : list vec;
  metadata : Metadata;
  saved : option (list vec * Metadata)
}.

(** [faiss.IndexFlatIP(EMBEDDING_DIM)] with
    [{"faqs": {}, "last_updated": None}], before any save. *)
Definition new_model : EmbeddingModel :=
  {| index := [];
     metadata := {| faqs := []; last_updated := None; consistency_check := None |};
     saved := None |}.

(** [save_index]: stamps the metadata, then writes index and metadata. *)
Definition save_index (now : timestamp) (m : EmbeddingModel) : EmbeddingModel :=
  let md := {| faqs := faqs (metadata m);
               last_updated := Some now;
               consistency_check := consistency_check (metadata m) |} in
  {| index := index m; metadata := md; saved := Some (index m, md) |}.

(** The loop over the FAISS labels in [search]. *)
Fixpoint join_results (d : list (Z * FAQItem)) (hits : list (float * Z))
    : result (list SearchResult) :=
  match hits with
  | [] => Ok []
  | (score, idx) :: hits' =>
      if Z.eqb idx (-1) then join_results d hits'
      else
        match PyDict.get idx d with
        | None => Raise (KeyError idx)
        | Some f =>
            rs ← join_results d hits';
            Ok ({| sr_id := id f; sr_question := question f;
                   sr_answer := answer f; sr_similarity := score |} :: rs)
        end
  end.

(** [search] for a number of slots that is a natural number; asking for
    no slot fails the assertion of [index.search]. *)
Definition search (query : string) (top_k : nat) (m : EmbeddingModel)
    : result (list SearchResult) :=
  let query_embedding := generate_embedding query in
  match top_k with
  | O => Raise AssertionError
  | S _ =>
      let hits := Faiss.search inner_product query_embedding top_k (index m) in
      join_results (faqs (metadata m)) hits
  end.

(** [search] with the [top_k] a handler passes on, any integer or [None]:
    [None > 0] is a [TypeError], and an integer that is not positive fails
    the assertion.  ([k] is taken to fit the 64-bit index type of FAISS.) *)
Definition search_any (query : string) (top_k : option Z) (m : EmbeddingModel)
    : result (list SearchResult) :=
  match top_k with
  | None => Raise TypeError
  | Some k =>
      if Z.ltb 0 k then search query (Z.to_nat k) m else Raise AssertionError
  end.

(** The loop that looks for the position of [faq_id], shared by
    [add_or_update_faq] and [delete_faq]: first entry in iteration order. *)
Fixpoint find_idx (faq_id : Z) (d : list (Z * FAQItem)) : option Z :=
  match d with
  | [] => None
  | (idx, f) :: d' => if Z.eqb (id f) faq_id then Some idx else find_idx faq_id d'
  end.

Definition add_or_update_faq (now : timestamp) (faq_id : Z) (q : string)
    (a : option string) (m : EmbeddingModel) : Z * EmbeddingModel :=
  let question_embedding := generate_embedding q in
  let existing_idx := find_idx faq_id (faqs (metadata m)) in
  let index1 :=
    match existing_idx with
    | Some i => Faiss.remove_ids [i] (index m)
    | None => index m
    end in
  let idx := Faiss.ntotal index1 in
  let index2 := Faiss.add question_embedding index1 in
  let md := {| faqs := PyDict.set idx {| id := faq_id; question := q; answer := a |}
                         (faqs (metadata m));
               last_updated := last_updated (metadata m);
               consistency_check := consistency_check (metadata m) |} in
  (idx, save_index now {| index := index2; metadata := md; saved := saved m |}).

(** The rebuilding loop of [delete_faq], started from the empty dictionary. *)
Fixpoint renumber (idx_to_remove : Z) (d : list (Z * FAQItem))
    (new_faqs : list (Z * FAQItem)) : list (Z * FAQItem) :=
  match d with
  | [] => new_faqs
  | (idx, f) :: d' =>
      if Z.eqb idx idx_to_remove then renumber idx_to_remove d' new_faqs
      else
        let new_idx := if Z.ltb idx_to_remove idx then idx - 1 else idx in
        renumber idx_to_remove d' (PyDict.set new_idx f new_faqs)
  end.

Definition delete_faq (now : timestamp) (faq_id : Z) (m : EmbeddingModel)
    : bool * EmbeddingModel :=
  match find_idx faq_id (faqs (metadata m)) with
  | Some idx_to_remove =>
      let index1 := Faiss.remove_ids [idx_to_remove] (index m) in
      let new_metadata :=
        {| faqs := renumber idx_to_remove (faqs (metadata m)) [];
           last_updated := None;
           consistency_check := None |} in
      (true, save_index now {| index := index1; metadata := new_metadata;
                               saved := saved m |})
  | None => (false, m)
  end.

(** [save_consistency_result]; no handler calls it.  The clock is read for
    the stored timestamp and again by [save_index]. *)
Definition save_consistency_result (now now' : timestamp) (r : CheckResult)
    (m : EmbeddingModel) : EmbeddingModel :=
  let md := {| faqs := faqs (metadata m);
               last_updated := last_updated (metadata m);
               consistency_check := Some (now, r) |} in
  save_index now' {| index := index m; metadata := md; saved := saved m |}.

(** ** The handlers of [app/api/endpoints.py] *)

(** [HIGH_CONFIDENCE_THRESHOLD], read once from the environment (variable
    [DEFAULT_THRESHOLD], default ["0.8"]). *)
Variable HIGH_CONFIDENCE_THRESHOLD : float.

Record QueryInput := {
  query_text : string;
  threshold : float;
  top_k : nat
}.

(** The two dictionaries [query] can return: ["best_match"] with question,
    answer and similarity, or ["alternatives"], a list of id, question and
    similarity. *)
Inductive QueryResponse :=
| BestMatch (q : string) (a : option string) (similarity : float)
| Alternatives (alternatives : list (Z * string * float)).

Definition passes (t : float) (r : SearchResult) : bool :=
  PrimFloat.leb t (sr_similarity r).

Definition alternative_of (r : SearchResult) : Z * string * float :=
  (sr_id r, sr_question r, sr_similarity r).

Definition classify (filtered_results : list SearchResult) : QueryResponse :=
  let alternative_questions := alternative_of <$> filtered_results in
  match filtered_results with
  | best_match :: _ =>
      if PrimFloat.ltb HIGH_CONFIDENCE_THRESHOLD (sr_similarity best_match)
      then BestMatch (sr_question best_match) (sr_answer best_match)
                     (sr_similarity best_match)
      else Alternatives alternative_questions
  | [] => Alternatives alternative_questions
  end.

Definition query (input_data : QueryInput) (m : EmbeddingModel)
    : result QueryResponse :=
  results ← search (query_text input_data) (top_k input_data) m;
  let filtered_results := List.filter (passes (threshold input_data)) results in
  Ok (classify filtered_results).

(** The request body as pydantic hands it over: [threshold] and [top_k] are
    optional fields, so a body can carry [null] for either, and [top_k] is
    any integer.  [QueryInput] above is the body with both present, an
    integer below zero counted as zero (both fail the assertion of
    [index.search]). *)
Record QueryRequest := {
  req_query : string;
  req_threshold : option float;
  req_top_k : option Z
}.

(** The list comprehension [r for r in results if r["similarity"] >=
    threshold]: with [threshold] being [None] the comparison raises at the
    first result, and nothing is compared when there is none. *)
Definition filter_by_threshold (threshold : option float)
    (results : list SearchResult) : result (list SearchResult) :=
  match threshold, results with
  | Some t, _ => Ok (List.filter (passes t) results)
  | None, [] => Ok []
  | None, _ :: _ => Raise TypeError
  end.

(** [POST /query] on any body that passes validation. *)
Definition query_request (input_data : QueryRequest) (m : EmbeddingModel)
    : result QueryResponse :=
  results ← search_any (req_query input_data) (req_top_k input_data) m;
  filtered_results ← filter_by_threshold (req_threshold input_data) results;
  Ok (classify filtered_results).

(** What [httpx.get] and [response.json()] can do in [perform_check]:
    the call raises (connection error, timeout) with message [msg]; or a
    response arrives with a status code and a body that either fails to
    decode ([inl msg]) or is the list of all FAQs. *)
Inductive HttpOutcome :=
| HttpRaises (msg : string)
| HttpResponse (status_code : Z) (body : string + list FAQItem).

(** [result] as [check_and_reindex] creates it. *)
Definition initial_result : CheckResult :=
  {| status := "checking"; faqs_total := 0;
     missing_in_faiss := []; orphaned_in_faiss := []; error := None |}.

(** The handler [except Exception as e] applied to [result]. *)
Definition failed (r : CheckResult) (msg : string) : CheckResult :=
  {| status := "error"; faqs_total := faqs_total r;
     missing_in_faiss := missing_in_faiss r;
     orphaned_in_faiss := orphaned_in_faiss r; error := Some msg |}.

Definition faiss_ids (m : EmbeddingModel) : gset Z :=
  list_to_set ((id ∘ snd) <$> faqs (metadata m)).

(** The two repair loops.  Every [save_index] reads the clock once: [n]
    counts the readings of the run so far, [clock n] is the next one. *)
Fixpoint add_missing (clock : nat → timestamp) (missing : gset Z)
    (postgres_faqs : list FAQItem) (n : nat) (m : EmbeddingModel)
    : nat * EmbeddingModel :=
  match postgres_faqs with
  | [] => (n, m)
  | faq :: rest =>
      if bool_decide (id faq ∈ missing)
      then add_missing clock missing rest (S n)
             (add_or_update_faq (clock n) (id faq) (question faq) (answer faq) m).2
      else add_missing clock missing rest n m
  end.

Fixpoint remove_orphaned (clock : nat → timestamp) (orphaned : list Z)
    (n : nat) (m : EmbeddingModel) : nat * EmbeddingModel :=
  match orphaned with
  | [] => (n, m)
  | faq_id :: rest =>
      let '(found, m') := delete_faq (clock n) faq_id m in
      remove_orphaned clock rest (if found then S n else n) m'
  end.

(** [perform_check], returning the model and the final [result].  The
    guards [if missing_in_faiss:] and [if orphaned_in_faiss:] only skip
    loops that would not iterate.  A Python set has no stated iteration
    order: the model lists a set with [elements], the same list for
    [list(orphaned_in_faiss)] and for the deletion loop (as in Python, where
    both iterate the same unmodified set), and the statements about the
    reported lists speak of membership and of that common order only. *)
Definition perform_check (clock : nat → timestamp) (resp : HttpOutcome)
    (m : EmbeddingModel) : EmbeddingModel * CheckResult :=
  match resp with
  | HttpRaises msg => (m, failed initial_result msg)
  | HttpResponse status_code body =>
      if negb (Z.eqb status_code 200) then (m, initial_result)
      else
        match body with
        | inl msg => (m, failed initial_result msg)
        | inr postgres_faqs =>
            let postgres_faq_ids : gset Z := list_to_set (id <$> postgres_faqs) in
            let faiss_faq_ids := faiss_ids m in
            let missing := postgres_faq_ids ∖ faiss_faq_ids in
            let orphaned := faiss_faq_ids ∖ postgres_faq_ids in
            let '(n, m1) := add_missing clock missing postgres_faqs 0 m in
            let '(_, m2) := remove_orphaned clock (elements orphaned) n m1 in
            (m2,
             {| status :=
                  if bool_decide (missing ≠ ∅ ∨ orphaned ≠ ∅)
                  then "reindexed" else "consistent";
                faqs_total := Z.of_nat (length postgres_faqs);
                missing_in_faiss := elements missing;
                orphaned_in_faiss := elements orphaned;
                error := None |})
        end
  end.

(** [check_and_reindex]: answers ["processing"] and leaves [perform_check]
    to the background task; the model is the one the finished task leaves
    behind, [result] itself is a local of the handler. *)
Definition check_and_reindex (clock : nat → timestamp) (resp : HttpOutcome)
    (m : EmbeddingModel) : string * EmbeddingModel :=
  ("processing", (perform_check clock resp m).1).

Inductive ConsistencyStatus :=
| LastCheck (stored : timestamp * CheckResult)
| NeverRun.

Definition get_consistency_status (m : EmbeddingModel) : ConsistencyStatus :=
  match consistency_check (metadata m) with
  | Some c => LastCheck c
  | None => NeverRun
  end.

(** ** Sequences of writes *)

Inductive op :=
| CreateOrUpdate (now : timestamp) (faq_id : Z) (q : string) (a : option string)
| Delete (now : timestamp) (faq_id : Z).

Definition apply_op (m : EmbeddingModel) (o : op) : EmbeddingModel :=
  match o with
  | CreateOrUpdate now faq_id q a => (add_or_update_faq now faq_id q a m).2
  | Delete now faq_id => (delete_faq now faq_id m).2
  end.

Definition run (ops : list op) (m : EmbeddingModel) : EmbeddingModel :=
  foldl apply_op m ops.

(** The ids in position order of their keys' iteration. *)
Definition positions (m : EmbeddingModel) : list (Z * Z) :=
  (λ e, (e.1, id e.2)) <$> faqs (metadata m).

End Service.

(** * Vocabulary of the statements *)

Section Vocabulary.
Context {vec : Type}.
Variable generate_embedding : string → vec.

(** Where position [k] goes when position [p] is removed. *)
Definition shift_down (p k : Z) : Z := if Z.ltb p k then k - 1 else k.

(** The metadata without the entry of position [p], every later position
    moved down by one, in the same order. *)
Definition renumbered (p : Z) (d : list (Z * FAQItem)) : list (Z * FAQItem) :=
  (λ e, (shift_down p e.1, e.2)) <$> filter (λ e, e.1 ≠ p) d.

(** The keys of the metadata are exactly the positions of the index. *)
Definition dense (m : EmbeddingModel (vec := vec)) : Prop :=
  PyDict.wf (faqs (metadata m)) ∧
  ∀ k, k ∈ PyDict.keys (faqs (metadata m)) ↔ 0 ≤ k < Faiss.ntotal (index m).

(** No FAQ id sits at two positions. *)
Definition ids_unique (m : EmbeddingModel (vec := vec)) : Prop :=
  NoDup ((id ∘ snd) <$> faqs (metadata m)).

(** The slots of a FAISS answer that carry a position. *)
Definition real_hits (hits : list (float * Z)) : list (float * Z) :=
  filter (λ h, h.2 ≠ -1) hits.

(** [r] is the entry stored under the position of hit [h], with the score
    of [h]. *)
Definition joined (d : list (Z * FAQItem)) (h : float * Z) (r : SearchResult)
    : Prop :=
  ∃ f, PyDict.get h.2 d = Some f ∧
       r = {| sr_id := id f; sr_question := question f;
              sr_answer := answer f; sr_similarity := h.1 |}.

(** The order of doubles.  [PrimFloat.leb] and [PrimFloat.ltb] are
    [SpecFloat.SFcompare] on the decoded values; [order_key] sends a decoded
    value to a triple of integers (sign class, exponent, mantissa) whose
    lexicographic order is the order of the values that are not NaN. *)
Definition order_key (f : SpecFloat.spec_float) : Z * Z * Z :=
  match f with
  | SpecFloat.S754_zero _ => (0, 0, 0)
  | SpecFloat.S754_infinity true => (-2, 0, 0)
  | SpecFloat.S754_infinity false => (2, 0, 0)
  | SpecFloat.S754_nan => (0, 0, 0)
  | SpecFloat.S754_finite true m e => (-1, - e, - Z.pos m)
  | SpecFloat.S754_finite false m e => (1, e, Z.pos m)
  end.

Definition key_lt (a b : Z * Z * Z) : Prop :=
  a.1.1 < b.1.1 ∨
  (a.1.1 = b.1.1 ∧ (a.1.2 < b.1.2 ∨ (a.1.2 = b.1.2 ∧ a.2 < b.2))).

Definition key_le (a b : Z * Z * Z) : Prop :=
  a.1.1 < b.1.1 ∨
  (a.1.1 = b.1.1 ∧ (a.1.2 < b.1.2 ∨ (a.1.2 = b.1.2 ∧ a.2 ≤ b.2))).

Definition number (x : float) : Prop :=
  FloatOps.Prim2SF x ≠ SpecFloat.S754_nan.

Definition float_key (x : float) : Z * Z * Z := order_key (FloatOps.Prim2SF x).

(** [a] is listed before [b] rightly: if both are numbers, [b <= a].  A
    score that is NaN compares with nothing, and no order is asked of
    it. *)
Definition not_below (a b : float) : Prop :=
  PrimFloat.leb a a = true → PrimFloat.leb b b = true →
  PrimFloat.leb b a = true.

(** A list of results in which no result has a higher similarity than a
    result before it. *)
Definition by_decreasing_similarity (rs : list SearchResult) : Prop :=
  StronglySorted
    (λ a b, PrimFloat.leb (sr_similarity b) (sr_similarity a) = true) rs.

(** One creation per record, one deletion per id, at the given clock
    readings. *)
Definition creations (ts : list timestamp) (fs : list FAQItem) : list op :=
  zip_with (λ t f, CreateOrUpdate t (id f) (question f) (answer f)) ts fs.

Definition deletions (ts : list timestamp) (ids : list Z) : list op :=
  zip_with Delete ts ids.

(** The models that creations, updates and deletions build from the empty
    one. *)
Definition reachable (m : EmbeddingModel (vec := vec)) : Prop :=
  ∃ ops, m = run generate_embedding ops new_model.

End Vocabulary.

(** * The rest of the service *)

(** What a handler answers: a body, or [raise HTTPException]. *)
Inductive http (A : Type) :=
| Respond (body : A)
| HTTPException (status_code : Z) (detail : string).
Arguments Respond {A} body.
Arguments HTTPException {A} status_code detail.

Section Handlers.
Context {vec : Type}.
Variable generate_embedding : string → vec.
Variable inner_product : vec → vec → float.

(** [load_index], run once when the singleton is built.  [disk] is what
    [INDEX_PATH] and [METADATA_PATH] hold: nothing, or the pair a
    [save_index] wrote (JSON keeps the order of the keys and the values).
    Files that exist but cannot be read are outside this model. *)
Definition load_index (now : timestamp) (disk : option (list vec * Metadata))
    : EmbeddingModel (vec := vec) :=
  match disk with
  | Some (ix, md) => {| index := ix; metadata := md; saved := disk |}
  | None => save_index now new_model
  end.

(** [POST /faqs]: the body carries the id and the position. *)
Definition create_faq (now : timestamp) (faq : FAQItem) (m : EmbeddingModel (vec := vec))
    : (Z * Z) * EmbeddingModel (vec := vec) :=
  let '(idx, m') :=
    add_or_update_faq generate_embedding now (id faq) (question faq) (answer faq) m in
  ((id faq, idx), m').

(** [PUT /faqs/{faq_id}]. *)
Definition update_faq (now : timestamp) (faq_id : Z) (faq : FAQItem)
    (m : EmbeddingModel (vec := vec)) : http (Z * Z) * EmbeddingModel (vec := vec) :=
  if negb (Z.eqb (id faq) faq_id)
  then (HTTPException 400 "FAQ ID in path does not match body", m)
  else
    let '(idx, m') :=
      add_or_update_faq generate_embedding now (id faq) (question faq) (answer faq) m in
    (Respond (id faq, idx), m').

(** [DELETE /faqs/{faq_id}], the handler [delete_faq] of the router. *)
Definition delete_faq_endpoint (now : timestamp) (faq_id : Z) (m : EmbeddingModel (vec := vec))
    : http Z * EmbeddingModel (vec := vec) :=
  let '(success, m') := delete_faq now faq_id m in
  if negb success
  then (HTTPException 404 ("FAQ with ID " ++ pretty.pretty faq_id ++ " not found")%string, m')
  else (Respond faq_id, m').

(** [process_bulk_indexing], the background task of [POST /bulk_index]:
    one [add_or_update_faq] per item, in order; [clock n] is the clock
    reading of the [n]-th save. *)
Fixpoint process_bulk_indexing (clock : nat → timestamp) (items : list FAQItem)
    (n : nat) (m : EmbeddingModel (vec := vec)) : EmbeddingModel (vec := vec) :=
  match items with
  | [] => m
  | faq :: rest =>
      process_bulk_indexing clock rest (S n)
        (add_or_update_faq generate_embedding (clock n) (id faq) (question faq)
           (answer faq) m).2
  end.

Definition bulk_index (clock : nat → timestamp) (faqs : list FAQItem)
    (m : EmbeddingModel (vec := vec)) : string * EmbeddingModel (vec := vec) :=
  ("processing", process_bulk_indexing clock faqs 0 m).

(** The counting loop of [get_faiss_stats]; [faq_count_by_id] is a
    dictionary from FAQ ids to counts. *)
Fixpoint count_ids (d : list (Z * FAQItem)) (faq_count_by_id : list (Z * Z))
    : list (Z * Z) :=
  match d with
  | [] => faq_count_by_id
  | (idx, f) :: d' =>
      count_ids d'
        (match PyDict.get (id f) faq_count_by_id with
         | Some c => PyDict.set (id f) (c + 1) faq_count_by_id
         | None => PyDict.set (id f) 1 faq_count_by_id
         end)
  end.

(** The fields of [GET /faiss/stats] that do not depend on the dimension of
    the vectors (left out: ["dimension"], ["index_type"],
    ["memory_usage_mb"]). *)
Record FaissStats := {
  total_vectors : Z;
  stats_last_updated : option timestamp;
  unique_faq_ids : Z;
  has_duplicates : bool;
  duplicates : list (Z * Z)
}.

Definition get_faiss_stats (m : EmbeddingModel (vec := vec)) : FaissStats :=
  let faq_count_by_id := count_ids (faqs (metadata m)) [] in
  let duplicates := List.filter (λ e, Z.ltb 1 e.2) faq_count_by_id in
  {| total_vectors := Faiss.ntotal (index m);
     stats_last_updated := last_updated (metadata m);
     unique_faq_ids := Z.of_nat (length faq_count_by_id);
     has_duplicates := Z.ltb 0 (Z.of_nat (length duplicates));
     duplicates := duplicates |}.

(** A Python slice [l[a:b]] of a list, for any two integers: a negative
    bound counts from the end, both bounds are clamped to the list. *)
Definition py_slice {A : Type} (a b : Z) (l : list A) : list A :=
  let n := Z.of_nat (length l) in
  let clamp := λ x : Z, if Z.ltb x 0 then Z.max (x + n) 0 else Z.min x n in
  take (Z.to_nat (clamp b - clamp a)) (drop (Z.to_nat (clamp a)) l).

Record FaissItem := {
  fi_index : Z;
  fi_id : Z;
  fi_question : string;
  fi_answer : option string
}.

(** The loop of [list_faiss_items] over the page of keys. *)
Fixpoint collect_items (d : list (Z * FAQItem)) (paginated_keys : list Z)
    : list FaissItem :=
  match paginated_keys with
  | [] => []
  | idx :: rest =>
      match PyDict.get idx d with
      | Some f =>
          {| fi_index := idx; fi_id := id f; fi_question := question f;
             fi_answer := answer f |} :: collect_items d rest
      | None => collect_items d rest
      end
  end.

(** [GET /faiss/list]; [sorted] on integers is the ascending sort. *)
Definition list_faiss_items (skip limit : Z) (m : EmbeddingModel (vec := vec))
    : list FaissItem :=
  let sorted_keys := merge_sort Z.le (PyDict.keys (faqs (metadata m))) in
  let paginated_keys := py_slice skip (skip + limit) sorted_keys in
  collect_items (faqs (metadata m)) paginated_keys.

(** [DELETE /faiss/reset]: the clock is read for the new metadata and again
    by [save_index]. *)
Definition reset_faiss_index (now now' : timestamp) (m : EmbeddingModel (vec := vec))
    : EmbeddingModel (vec := vec) :=
  save_index now'
    {| index := [];
       metadata := {| faqs := []; last_updated := Some now;
                      consistency_check := None |};
       saved := saved m |}.

(** The loop of [find_similar_questions] that looks the question up. *)
Fixpoint find_question (faq_id : Z) (d : list (Z * FAQItem)) : option string :=
  match d with
  | [] => None
  | (idx, f) :: d' =>
      if Z.eqb (id f) faq_id then Some (question f) else find_question faq_id d'
  end.

(** [GET /faiss/similar-questions/{faq_id}]; [not question] holds for
    [None] and for the empty string.  [threshold] is a [float] and [top_k]
    an [int] (neither is optional here), and [top_k] can be any integer. *)
Definition find_similar_questions (faq_id : Z) (threshold : float) (top_k : Z)
    (m : EmbeddingModel (vec := vec)) : result (http (list SearchResult)) :=
  match find_question faq_id (faqs (metadata m)) with
  | None | Some "" =>
      Ok (HTTPException 404 ("FAQ with ID " ++ pretty.pretty faq_id ++ " not found")%string)
  | Some q =>
      results ← search_any generate_embedding inner_product q (Some (top_k + 1)) m;
      Ok (Respond
            (List.filter
               (λ r, negb (Z.eqb (sr_id r) faq_id)
                     && PrimFloat.leb threshold (sr_similarity r))
               results))
  end.

End Handlers.

(** * More vocabulary *)

Section MoreVocabulary.
Context {vec : Type}.
Variable generate_embedding : string → vec.

(** The files hold the index and the metadata of the model. *)
Definition persisted (m : EmbeddingModel (vec := vec)) : Prop :=
  saved m = Some (index m, metadata m).

(** Every metadata entry sits at the position of the embedding of its own
    question. *)
Definition aligned (m : EmbeddingModel (vec := vec)) : Prop :=
  ∀ k f, PyDict.get k (faqs (metadata m)) = Some f →
         index m !! Z.to_nat k = Some (generate_embedding (question f)).

Definition well_formed (m : EmbeddingModel (vec := vec)) : Prop :=
  dense m ∧ ids_unique m ∧ aligned m.

(** [faq_id] has no entry, or its entry is the one of the last position. *)
Definition new_or_last (faq_id : Z) (m : EmbeddingModel (vec := vec)) : Prop :=
  match find_idx faq_id (faqs (metadata m)) with
  | None => True
  | Some p => p = Faiss.ntotal (index m) - 1
  end.

(** Every creation or update of the sequence meets, in the model it is
    applied to, an id that is new or last. *)
Fixpoint appending (ops : list op) (m : EmbeddingModel (vec := vec)) : Prop :=
  match ops with
  | [] => True
  | o :: ops' =>
      match o with
      | CreateOrUpdate _ faq_id _ _ => new_or_last faq_id m
      | Delete _ _ => True
      end ∧ appending ops' (apply_op generate_embedding m o)
  end.

(** How many entries carry [faq_id]. *)
Definition occurrences (faq_id : Z) (d : list (Z * FAQItem)) : nat :=
  length (filter (λ e, id e.2 = faq_id) d).

End MoreVocabulary.

(** * Instances used to run the model *)

Module Demo.

(** A toy embedding: the text itself, two texts scoring 0.8 when equal and
    0.6 otherwise. *)
Definition embed (s : string) : string := s.

Definition ip (a b : string) : float :=
  if String.eqb a b then float_0_8 else float_0_6.

Definition faq (i : Z) (q : string) : FAQItem :=
  {| id := i; question := q; answer := Some ("answer to " ++ q)%string |}.

(** Three FAQs created one after the other in an empty model. *)
Definition three : EmbeddingModel :=
  run embed [CreateOrUpdate "t1" 10 "q10" None;
             CreateOrUpdate "t2" 20 "q20" None;
             CreateOrUpdate "t3" 30 "q30" None] new_model.

(** A vector without a metadata entry, as an index file and a metadata
    file that do not belong together would load. *)
Definition torn : EmbeddingModel :=
  {| index := ["q10"];
     metadata := {| faqs := []; last_updated := None; consistency_check := None |};
     saved := None |}.

Definition ask (q : string) : QueryInput :=
  {| query_text := q; threshold := float_0_6; top_k := 3 |}.

End Demo.

(** * Properties *)

(** ** Dictionaries *)

Section dict_facts.
Context {V : Type}.
Implicit Types (d : list (Z * V)) (k : Z) (v : V).

Lemma get_None k d : PyDict.get k d = None ↔ k ∉ PyDict.keys d.
Proof.
  induction d as [|[k' v'] d IH]; simpl.
  - split; [intros _ H; inversion H | done].
  - destruct (Z.eqb_spec k k') as [->|Hne].
    + split; [done|]. intros H. destruct H. left.
    + rewrite IH. unfold PyDict.keys. rewrite not_elem_of_cons. simpl. tauto.
Qed.

Lemma get_Some_elem k v d : PyDict.get k d = Some v → (k, v) ∈ d.
Proof.
  induction d as [|[k' v'] d IH]; simpl; [done|].
  destruct (Z.eqb_spec k k') as [->|Hne].
  - intros [= ->]. left.
  - intros H. right. auto.
Qed.

Lemma elem_get k v d : PyDict.wf d → (k, v) ∈ d → PyDict.get k d = Some v.
Proof.
  unfold PyDict.wf, PyDict.keys.
  induction d as [|[k' v'] d IH]; simpl; intros Hnd Hin; [inversion Hin|].
  apply NoDup_cons in Hnd as [Hk' Hnd].
  apply elem_of_cons in Hin as [[= -> ->]|Hin].
  - by rewrite Z.eqb_refl.
  - destruct (Z.eqb_spec k k') as [->|Hne]; [|auto].
    destruct Hk'. apply list_elem_of_fmap. by exists (k', v).
Qed.

Lemma set_fresh k v d : k ∉ PyDict.keys d → PyDict.set k v d = d ++ [(k, v)].
Proof.
  unfold PyDict.keys.
  induction d as [|[k' v'] d IH]; simpl; [done|].
  rewrite not_elem_of_cons. intros [Hne Hk].
  destruct (Z.eqb_spec k k') as [->|_]; [done|]. by rewrite IH.
Qed.

Lemma keys_set_present k v d :
  k ∈ PyDict.keys d → PyDict.keys (PyDict.set k v d) = PyDict.keys d.
Proof.
  unfold PyDict.keys.
  induction d as [|[k' v'] d IH]; simpl; intros Hin; [inversion Hin|].
  destruct (Z.eqb_spec k k') as [->|Hne]; [done|].
  simpl. f_equal. apply IH. apply elem_of_cons in Hin as [?|?]; done.
Qed.

Lemma keys_set_fresh k v d :
  k ∉ PyDict.keys d → PyDict.keys (PyDict.set k v d) = PyDict.keys d ++ [k].
Proof.
  intros H. rewrite set_fresh by done. unfold PyDict.keys. by rewrite fmap_app.
Qed.

Lemma get_set k k' v d :
  PyDict.get k' (PyDict.set k v d) = if Z.eqb k' k then Some v else PyDict.get k' d.
Proof.
  induction d as [|[k1 v1] d IH]; simpl.
  - by destruct (Z.eqb_spec k' k).
  - destruct (Z.eqb_spec k k1) as [->|Hne]; simpl.
    + by destruct (Z.eqb_spec k' k1).
    + destruct (Z.eqb_spec k' k1) as [->|Hne'].
      * destruct (Z.eqb_spec k1 k); [congruence | done].
      * apply IH.
Qed.

Lemma wf_set k v d : PyDict.wf d → PyDict.wf (PyDict.set k v d).
Proof.
  unfold PyDict.wf. intros Hnd.
  destruct (decide (k ∈ PyDict.keys d)) as [Hin|Hout].
  - by rewrite keys_set_present.
  - rewrite keys_set_fresh by done.
    apply NoDup_app. split_and!; [done| |apply NoDup_singleton].
    intros x Hx ->%list_elem_of_singleton. done.
Qed.

End dict_facts.

(** ** The flat index *)

Section faiss_facts.
Context {vec : Type}.
Implicit Types (xb : list vec).

Lemma remove_ids_from_passed pos p xb :
  p < pos → Faiss.remove_ids_from pos [p] xb = xb.
Proof.
  revert pos. induction xb as [|x xb IH]; intros pos Hlt; simpl; [done|].
  rewrite bool_decide_eq_false_2.
  - f_equal. apply IH. lia.
  - rewrite list_elem_of_singleton. lia.
Qed.

Lemma remove_ids_from_cut pos p xb :
  pos ≤ p →
  Faiss.remove_ids_from pos [p] xb =
    take (Z.to_nat (p - pos)) xb ++ drop (S (Z.to_nat (p - pos))) xb.
Proof.
  revert pos. induction xb as [|x xb IH]; intros pos Hle; simpl;
    [by rewrite take_nil|].
  destruct (decide (pos = p)) as [->|Hne].
  - rewrite bool_decide_eq_true_2 by apply list_elem_of_singleton, eq_refl.
    rewrite Z.sub_diag. simpl. rewrite drop_0.
    apply remove_ids_from_passed. lia.
  - rewrite bool_decide_eq_false_2 by (rewrite list_elem_of_singleton; done).
    rewrite IH by lia.
    replace (Z.to_nat (p - pos)) with (S (Z.to_nat (p - (pos + 1)))) by lia.
    done.
Qed.

(** Removing a position of the index cuts that one vector out. *)
Lemma remove_ids_position p xb :
  0 ≤ p →
  Faiss.remove_ids [p] xb = take (Z.to_nat p) xb ++ drop (S (Z.to_nat p)) xb.
Proof.
  intros Hp. unfold Faiss.remove_ids. rewrite remove_ids_from_cut by done.
  by rewrite Z.sub_0_r.
Qed.

Lemma ntotal_remove_ids p xb :
  0 ≤ p < Faiss.ntotal xb →
  Faiss.ntotal (Faiss.remove_ids [p] xb) = Faiss.ntotal xb - 1.
Proof.
  unfold Faiss.ntotal. intros Hp. rewrite remove_ids_position by lia.
  rewrite length_app, length_take, length_drop. lia.
Qed.

Lemma ntotal_add (x : vec) xb : Faiss.ntotal (Faiss.add x xb) = Faiss.ntotal xb + 1.
Proof. unfold Faiss.ntotal, Faiss.add. rewrite length_app. simpl. lia. Qed.

Variable inner_product : vec → vec → float.

Lemma insert_hit_perm h hs : Faiss.insert_hit h hs ≡ₚ h :: hs.
Proof.
  induction hs as [|h' hs IH]; simpl; [done|].
  destruct (PrimFloat.leb h'.1 h.1); [done|].
  rewrite IH. apply Permutation_swap.
Qed.

Lemma rank_perm hs : Faiss.rank hs ≡ₚ hs.
Proof.
  induction hs as [|h hs IH]; simpl; [done|].
  by rewrite insert_hit_perm, IH.
Qed.

Lemma elem_of_rank_scored q xb s l :
  (s, l) ∈ Faiss.rank (Faiss.scored inner_product q xb) ↔
  ∃ i x, xb !! i = Some x ∧ s = inner_product q x ∧ l = Z.of_nat i.
Proof.
  rewrite rank_perm. unfold Faiss.scored. rewrite elem_of_lookup_imap.
  split; intros (i & x & H1 & H2); exists i, x.
  - by injection H1 as -> ->.
  - destruct H2 as [-> ->]. done.
Qed.

Lemma length_rank_scored q xb :
  length (Faiss.rank (Faiss.scored inner_product q xb)) = length xb.
Proof.
  rewrite (Permutation_length (rank_perm _)). unfold Faiss.scored.
  apply length_imap.
Qed.

Lemma filter_all {A} (P : A → Prop) `{∀ x, Decision (P x)} (l : list A) :
  Forall P l → filter P l = l.
Proof.
  induction 1 as [|x l Hx Hl IH]; [done|].
  by rewrite filter_cons_True, IH.
Qed.

Lemma filter_none {A} (P : A → Prop) `{∀ x, Decision (P x)} (l : list A) :
  Forall (λ x, ¬ P x) l → filter P l = [].
Proof.
  induction 1 as [|x l Hx Hl IH]; [done|].
  by rewrite filter_cons_False.
Qed.

(** The slots of [index.search] that carry a position are the first [k]
    ranked vectors. *)
Lemma real_hits_search q k xb :
  real_hits (Faiss.search inner_product q k xb) =
    take k (Faiss.rank (Faiss.scored inner_product q xb)).
Proof.
  unfold real_hits, Faiss.search. rewrite filter_app.
  rewrite filter_all, filter_none; [by rewrite app_nil_r| |].
  - apply Forall_forall. intros h ->%elem_of_replicate_inv. simpl. auto.
  - apply Forall_forall. intros [s l] Hin%subseteq_take.
    apply elem_of_rank_scored in Hin as (i & x & _ & _ & ->). simpl. lia.
Qed.

Lemma length_real_hits_search q k xb :
  length (real_hits (Faiss.search inner_product q k xb)) = (k `min` length xb)%nat.
Proof. by rewrite real_hits_search, length_take, length_rank_scored. Qed.

Lemma length_search q k xb : length (Faiss.search inner_product q k xb) = k.
Proof.
  unfold Faiss.search. rewrite length_app, length_replicate, length_take. lia.
Qed.

Lemma elem_of_real_hits_search q k xb s l :
  (s, l) ∈ real_hits (Faiss.search inner_product q k xb) →
  ∃ i x, xb !! i = Some x ∧ s = inner_product q x ∧ l = Z.of_nat i.
Proof.
  rewrite real_hits_search. intros Hin%subseteq_take.
  by apply elem_of_rank_scored.
Qed.

(** *** The order of the answer *)

Lemma SFcompare_order_key f1 f2 :
  match SpecFloat.SFcompare f1 f2 with
  | None => f1 = SpecFloat.S754_nan ∨ f2 = SpecFloat.S754_nan
  | Some c =>
      f1 ≠ SpecFloat.S754_nan ∧ f2 ≠ SpecFloat.S754_nan ∧
      match c with
      | Lt => key_lt (order_key f1) (order_key f2)
      | Eq => order_key f1 = order_key f2
      | Gt => key_lt (order_key f2) (order_key f1)
      end
  end.
Proof.
  unfold key_lt.
  destruct f1 as [s1|s1| |s1 m1 e1], f2 as [s2|s2| |s2 m2 e2]; simpl;
    try (by right); try (by left);
    try (destruct s1; try destruct s2; simpl; split_and!; try done; lia);
    try (destruct s2; simpl; split_and!; try done; lia).
  change (PosDef.Pos.compare_cont Eq m1 m2) with (Pos.compare m1 m2).
  destruct s1, s2; simpl; (split; [done|split; [done|]]); try lia;
    destruct (Z.compare_spec e1 e2); destruct (Pos.compare_spec m1 m2);
    simpl; subst; try reflexivity; lia.
Qed.

Lemma leb_key x y :
  PrimFloat.leb x y = true ↔
  number x ∧ number y ∧ key_le (float_key x) (float_key y).
Proof.
  rewrite FloatAxioms.leb_spec. unfold SpecFloat.SFleb, number, float_key.
  pose proof (SFcompare_order_key (FloatOps.Prim2SF x) (FloatOps.Prim2SF y))
    as Hc.
  destruct (SpecFloat.SFcompare _ _) as [[]|].
  - destruct Hc as (? & ? & ->). split; [|done]. intros _.
    split_and!; [done..|]. unfold key_le. lia.
  - destruct Hc as (? & ? & Hlt). split; [|done]. intros _.
    split_and!; [done..|]. unfold key_le, key_lt in *. lia.
  - destruct Hc as (? & ? & Hlt). split; [done|]. intros (_ & _ & Hle).
    unfold key_le, key_lt in *. lia.
  - split; [done|]. intros (? & ? & _). by destruct Hc.
Qed.

Lemma ltb_key x y :
  PrimFloat.ltb x y = true ↔
  number x ∧ number y ∧ key_lt (float_key x) (float_key y).
Proof.
  rewrite FloatAxioms.ltb_spec. unfold SpecFloat.SFltb, number, float_key.
  pose proof (SFcompare_order_key (FloatOps.Prim2SF x) (FloatOps.Prim2SF y))
    as Hc.
  destruct (SpecFloat.SFcompare _ _) as [[]|].
  - destruct Hc as (? & ? & Heq). split; [done|]. intros (_ & _ & Hlt).
    rewrite Heq in Hlt. unfold key_lt in Hlt. lia.
  - destruct Hc as (? & ? & Hlt). by split.
  - destruct Hc as (? & ? & Hgt). split; [done|]. intros (_ & _ & Hlt).
    unfold key_lt in *. lia.
  - split; [done|]. intros (? & ? & _). by destruct Hc.
Qed.

(** [x <= x] holds exactly of the numbers. *)
Lemma leb_refl_number x : PrimFloat.leb x x = true ↔ number x.
Proof.
  rewrite leb_key. split; [by intros (? & _)|]. intros Hx.
  split_and!; [done..|]. unfold key_le. lia.
Qed.

Lemma leb_number_l x y : PrimFloat.leb x y = true → PrimFloat.leb x x = true.
Proof. rewrite leb_refl_number, leb_key. by intros (? & _). Qed.

Lemma leb_number_r x y : PrimFloat.leb x y = true → PrimFloat.leb y y = true.
Proof. rewrite leb_refl_number, leb_key. by intros (_ & ? & _). Qed.

Lemma leb_trans x y z :
  PrimFloat.leb x y = true → PrimFloat.leb y z = true →
  PrimFloat.leb x z = true.
Proof.
  rewrite !leb_key. intros (? & ? & Hxy) (_ & ? & Hyz).
  split_and!; [done..|]. unfold key_le in *. lia.
Qed.

(** Two numbers compare one way or the other. *)
Lemma leb_false_number x y :
  PrimFloat.leb x x = true → PrimFloat.leb y y = true →
  PrimFloat.leb x y = false → PrimFloat.leb y x = true.
Proof.
  rewrite !leb_refl_number. intros Hx Hy Hxy. apply leb_key.
  split_and!; [done..|].
  assert (¬ key_le (float_key x) (float_key y)) as Hn.
  { intros Hle. assert (PrimFloat.leb x y = true) by by apply leb_key.
    congruence. }
  unfold key_le in *. lia.
Qed.

Lemma ltb_leb_trans x y z :
  PrimFloat.ltb x y = true → PrimFloat.leb y z = true →
  PrimFloat.ltb x z = true.
Proof.
  rewrite !ltb_key, leb_key. intros (? & ? & Hxy) (_ & ? & Hyz).
  split_and!; [done..|]. unfold key_le, key_lt in *. lia.
Qed.

(** Inserting a hit keeps a ranked list ranked, so [rank] lists the hits by
    decreasing score (the scores that are numbers; FAISS gives no order to
    a NaN). *)
Lemma insert_hit_ranked h hs :
  StronglySorted (λ a b, not_below a.1 b.1) hs →
  StronglySorted (λ a b, not_below a.1 b.1) (Faiss.insert_hit h hs).
Proof.
  induction 1 as [|h' hs Hs IH Hall]; simpl; [by repeat constructor|].
  destruct (PrimFloat.leb h'.1 h.1) eqn:Hle.
  - constructor; [by constructor|]. constructor; [by intros _ _|].
    eapply Forall_impl; [exact Hall|]. intros x Hx _ Hxx.
    eapply leb_trans; [|exact Hle]. apply Hx; [|done].
    by eapply leb_number_l.
  - constructor; [done|].
    rewrite insert_hit_perm. constructor; [|done].
    intros Hh' Hh. by apply leb_false_number.
Qed.

Lemma rank_ranked hs :
  StronglySorted (λ a b, not_below a.1 b.1) (Faiss.rank hs).
Proof.
  induction hs as [|h hs IH]; simpl; [constructor|].
  by apply insert_hit_ranked.
Qed.

Lemma real_hits_search_ranked q k xb :
  StronglySorted (λ a b, not_below a.1 b.1)
    (real_hits (Faiss.search inner_product q k xb)).
Proof.
  rewrite real_hits_search.
  apply (StronglySorted_app_1_l _ _ (drop k (Faiss.rank (Faiss.scored inner_product q xb)))).
  rewrite take_drop. apply rank_ranked.
Qed.

End faiss_facts.


Section Properties.
Context {vec : Type}.
Variable generate_embedding : string → vec.
Variable inner_product : vec → vec → float.

Implicit Types (m : EmbeddingModel (vec := vec)) (d : list (Z * FAQItem)).

(** ** Looking a FAQ id up *)

Lemma find_idx_None faq_id d :
  find_idx faq_id d = None ↔ ∀ idx f, (idx, f) ∈ d → id f ≠ faq_id.
Proof.
  induction d as [|[k f] d IH]; simpl.
  - split; [intros _ idx f Hin; inversion Hin | done].
  - destruct (Z.eqb_spec (id f) faq_id) as [Heq|Hne].
    + split; [done|]. intros H. destruct (H k f); [left | done].
    + rewrite IH. split.
      * intros H idx g Hin. apply elem_of_cons in Hin as [[= -> ->]|Hin]; eauto.
      * intros H idx g Hin. apply (H idx g). by right.
Qed.

Lemma find_idx_Some faq_id d p :
  find_idx faq_id d = Some p → ∃ f, (p, f) ∈ d ∧ id f = faq_id.
Proof.
  induction d as [|[k f] d IH]; simpl; [done|].
  destruct (Z.eqb_spec (id f) faq_id) as [Heq|Hne].
  - intros [= ->]. exists f. split; [left | done].
  - intros H. destruct (IH H) as (g & Hin & Hg). exists g. split; [by right | done].
Qed.

(** ** Renumbering after a removal *)

Lemma shift_down_inj p k1 k2 :
  k1 ≠ p → k2 ≠ p → shift_down p k1 = shift_down p k2 → k1 = k2.
Proof.
  unfold shift_down. intros H1 H2.
  destruct (Z.ltb_spec p k1), (Z.ltb_spec p k2); lia.
Qed.

Lemma keys_renumbered p d :
  PyDict.keys (renumbered p d) = shift_down p <$> filter (λ k, k ≠ p) (PyDict.keys d).
Proof.
  unfold renumbered, PyDict.keys.
  induction d as [|[k f] d IH]; [done|].
  rewrite fmap_cons. simpl.
  destruct (decide (k = p)) as [->|Hne].
  - rewrite !filter_cons_False by (simpl; auto). apply IH.
  - rewrite !filter_cons_True by done. rewrite !fmap_cons. simpl. f_equal. apply IH.
Qed.

Lemma elem_of_keys_renumbered p d k' :
  k' ∈ PyDict.keys (renumbered p d) ↔
  ∃ k, k ∈ PyDict.keys d ∧ k ≠ p ∧ k' = shift_down p k.
Proof.
  rewrite keys_renumbered, list_elem_of_fmap. split.
  - intros (k & -> & [Hne Hin]%list_elem_of_filter). eauto.
  - intros (k & Hin & Hne & ->). exists k. split; [done|].
    by apply list_elem_of_filter.
Qed.

Lemma wf_renumbered p d : PyDict.wf d → PyDict.wf (renumbered p d).
Proof.
  unfold PyDict.wf. intros Hnd. rewrite keys_renumbered.
  apply NoDup_fmap_2_strong; [|by apply NoDup_filter].
  intros k1 k2 [H1 _]%list_elem_of_filter [H2 _]%list_elem_of_filter.
  by apply shift_down_inj.
Qed.

(** The loop of [delete_faq] never assigns a key twice, so it appends. *)
Lemma renumber_acc p d acc :
  PyDict.wf d →
  (∀ k, k ∈ PyDict.keys acc → k ∉ PyDict.keys (renumbered p d)) →
  renumber p d acc = acc ++ renumbered p d.
Proof.
  revert acc. induction d as [|[k f] d IH]; intros acc Hwf Hacc; simpl.
  - unfold renumbered. by rewrite filter_nil, fmap_nil, app_nil_r.
  - apply NoDup_cons in Hwf as [Hk Hwf].
    destruct (Z.eqb_spec k p) as [->|Hne].
    + assert (renumbered p ((p, f) :: d) = renumbered p d) as Heq.
      { unfold renumbered. by rewrite filter_cons_False by (simpl; auto). }
      rewrite Heq in Hacc |- *. by apply IH.
    + assert (renumbered p ((k, f) :: d) = (shift_down p k, f) :: renumbered p d)
        as Heq.
      { unfold renumbered. by rewrite filter_cons_True by done. }
      rewrite Heq in Hacc |- *.
      fold (shift_down p k). rewrite set_fresh.
      * rewrite IH; [by rewrite <- app_assoc|done|].
        intros k' Hk'. unfold PyDict.keys in Hk'. rewrite fmap_app in Hk'.
        apply elem_of_app in Hk' as [Hk'|Hk'].
        -- specialize (Hacc k' Hk'). unfold PyDict.keys in Hacc.
           rewrite fmap_cons in Hacc. by apply not_elem_of_cons in Hacc as [_ ?].
        -- apply list_elem_of_singleton in Hk' as ->. simpl.
           rewrite elem_of_keys_renumbered. intros (k2 & Hin & Hk2 & Hsh).
           apply shift_down_inj in Hsh; [|done..]. by subst.
      * intros Hin. apply (Hacc _ Hin). unfold PyDict.keys. rewrite fmap_cons. left.
Qed.

Lemma renumber_spec p d : PyDict.wf d → renumber p d [] = renumbered p d.
Proof.
  intros Hwf. rewrite renumber_acc; [done|done|].
  intros k Hk. inversion Hk.
Qed.

Lemma elem_of_renumbered p d k f :
  (k, f) ∈ d → k ≠ p → (shift_down p k, f) ∈ renumbered p d.
Proof.
  intros Hin Hne. unfold renumbered. apply list_elem_of_fmap.
  exists (k, f). split; [done|]. by apply list_elem_of_filter.
Qed.

(** ** The keys of the metadata and the positions of the index *)

Lemma dense_new_model : dense (new_model (vec := vec)).
Proof.
  split; [apply NoDup_nil_2|]. intros k. unfold Faiss.ntotal. simpl.
  split; [|lia]. intros H. inversion H.
Qed.

Lemma find_idx_position faq_id m p :
  dense m → find_idx faq_id (faqs (metadata m)) = Some p →
  0 ≤ p < Faiss.ntotal (index m).
Proof.
  intros [_ Hk] (f & Hin & _)%find_idx_Some. apply Hk.
  unfold PyDict.keys. apply list_elem_of_fmap. by exists (p, f).
Qed.

Lemma dense_add_or_update_faq now faq_id q a m :
  dense m → dense (add_or_update_faq generate_embedding now faq_id q a m).2.
Proof.
  intros Hd. pose proof Hd as [Hwf Hk]. unfold add_or_update_faq, dense. simpl.
  split; [by apply wf_set|].
  destruct (find_idx faq_id (faqs (metadata m))) as [p|] eqn:Hfind.
  - pose proof (find_idx_position _ _ _ Hd Hfind) as Hp.
    rewrite ntotal_add, ntotal_remove_ids by done.
    rewrite keys_set_present by (apply Hk; lia).
    intros k. rewrite Hk. lia.
  - rewrite ntotal_add.
    assert (Faiss.ntotal (index m) ∉ PyDict.keys (faqs (metadata m))) as Hfresh.
    { rewrite Hk. lia. }
    rewrite keys_set_fresh by done.
    intros k. rewrite elem_of_app, list_elem_of_singleton, Hk.
    unfold Faiss.ntotal. lia.
Qed.

Lemma dense_delete_faq now faq_id m :
  dense m → dense (delete_faq now faq_id m).2.
Proof.
  intros Hd. pose proof Hd as [Hwf Hk]. unfold delete_faq.
  destruct (find_idx faq_id (faqs (metadata m))) as [p|] eqn:Hfind; [|done].
  pose proof (find_idx_position _ _ _ Hd Hfind) as Hp.
  unfold dense. simpl. rewrite renumber_spec by done.
  split; [by apply wf_renumbered|].
  intros k'. rewrite ntotal_remove_ids by done.
  rewrite elem_of_keys_renumbered. split.
  - intros (k & Hin%Hk & Hne & ->). unfold shift_down.
    destruct (Z.ltb_spec p k); lia.
  - intros Hk'. destruct (Z.ltb_spec k' p).
    + exists k'. rewrite Hk. unfold shift_down.
      destruct (Z.ltb_spec p k'); lia.
    + exists (k' + 1). rewrite Hk. unfold shift_down.
      destruct (Z.ltb_spec p (k' + 1)); lia.
Qed.

Lemma dense_run ops m : dense m → dense (run generate_embedding ops m).
Proof.
  revert m. induction ops as [|o ops IH]; intros m Hd; [done|].
  simpl. apply IH. destruct o; simpl.
  - by apply dense_add_or_update_faq.
  - by apply dense_delete_faq.
Qed.

(** In every model built from the empty one by creations, updates and
    deletions, the keys of the metadata are pairwise different and are
    exactly the positions [0 .. ntotal - 1] of the index. *)
Lemma reachable_dense m : reachable generate_embedding m → dense m.
Proof. intros [ops ->]. apply dense_run, dense_new_model. Qed.

(** ** [search] *)

Lemma join_results_Ok d hits rs :
  join_results d hits = Ok rs → Forall2 (joined d) (real_hits hits) rs.
Proof.
  unfold real_hits. revert rs.
  induction hits as [|[s l] hits IH]; intros rs; simpl.
  - intros [= <-]. constructor.
  - destruct (Z.eqb_spec l (-1)) as [->|Hne].
    + rewrite filter_cons_False by (simpl; auto). apply IH.
    + rewrite filter_cons_True by done.
      destruct (PyDict.get l d) as [f|] eqn:Hget; [|done].
      destruct (join_results d hits) as [rs'|e]; simpl; [|done].
      intros [= <-]. constructor; [by exists f | by apply IH].
Qed.

Lemma join_results_total d hits :
  (∀ h, h ∈ real_hits hits → is_Some (PyDict.get h.2 d)) →
  ∃ rs, join_results d hits = Ok rs.
Proof.
  unfold real_hits. induction hits as [|[s l] hits IH]; simpl; intros Hall.
  - by eexists.
  - destruct (Z.eqb_spec l (-1)) as [->|Hne].
    + apply IH. intros h Hh. apply Hall.
      by rewrite filter_cons_False by (simpl; auto).
    + rewrite filter_cons_True in Hall by done.
      destruct (Hall (s, l)) as [f Hf]; [left|]. simpl in Hf. rewrite Hf.
      destruct IH as [rs Hrs]; [intros h Hh; apply Hall; by right|].
      rewrite Hrs. simpl. by eexists.
Qed.

Lemma join_results_KeyError d hits h :
  h ∈ real_hits hits → PyDict.get h.2 d = None →
  ∃ key, join_results d hits = Raise (KeyError key) ∧ PyDict.get key d = None.
Proof.
  unfold real_hits. induction hits as [|[s l] hits IH]; simpl; intros Hin Hnone.
  - inversion Hin.
  - destruct (Z.eqb_spec l (-1)) as [->|Hne].
    + rewrite filter_cons_False in Hin by (simpl; auto). by apply IH.
    + rewrite filter_cons_True in Hin by done.
      destruct (PyDict.get l d) as [f|] eqn:Hget; [|by exists l].
      apply elem_of_cons in Hin as [->|Hin]; [simpl in Hnone; congruence|].
      destruct (IH Hin Hnone) as (key & -> & Hkey). by exists key.
Qed.

(** [search] for at least one slot is the loop over the answer of FAISS;
    for no slot it is the failed assertion, so a [search] that returns was
    asked for at least one. *)
Lemma search_positive query top_k m :
  (0 < top_k)%nat →
  search generate_embedding inner_product query top_k m =
    join_results (faqs (metadata m))
      (Faiss.search inner_product (generate_embedding query) top_k (index m)).
Proof. intros Hk. unfold search. destruct top_k; [lia|done]. Qed.

Lemma search_Ok query top_k m rs :
  search generate_embedding inner_product query top_k m = Ok rs →
  (0 < top_k)%nat ∧
  join_results (faqs (metadata m))
    (Faiss.search inner_product (generate_embedding query) top_k (index m)) = Ok rs.
Proof. unfold search. destruct top_k; [done|]. split; [lia|done]. Qed.

(** The results come in the order of the hits, so by decreasing
    similarity: those kept by a filter that asks for a similarity not below
    some bound are numbers, and none of them has a higher similarity than
    one before it. *)
Lemma joined_ranked d hits rs :
  Forall2 (joined d) hits rs →
  StronglySorted (λ a b, not_below a.1 b.1) hits →
  StronglySorted (λ a b, not_below (sr_similarity a) (sr_similarity b)) rs.
Proof.
  induction 1 as [|h r hits rs (f & _ & ->) Hrest IH];
    intros Hs; [constructor|].
  apply StronglySorted_inv in Hs as [Hs Hall].
  constructor; [by apply IH|]. simpl.
  clear IH Hs. induction Hrest as [|h' r' hits rs (f' & _ & ->) _ IH];
    [constructor|].
  apply Forall_cons in Hall as [Hh Hall]. constructor; [done|by apply IH].
Qed.

Lemma filter_by_decreasing_similarity (keep : SearchResult → bool) t rs :
  (∀ r, r ∈ rs → keep r = true → PrimFloat.leb t (sr_similarity r) = true) →
  StronglySorted (λ a b, not_below (sr_similarity a) (sr_similarity b)) rs →
  by_decreasing_similarity (List.filter keep rs).
Proof.
  intros Hkeep. induction 1 as [|r rs Hs IH Hall]; simpl; [constructor|].
  assert (by_decreasing_similarity (List.filter keep rs)) as Hrest.
  { apply IH. intros r' Hr'. apply Hkeep. by right. }
  destruct (keep r) eqn:Hr; [|done].
  constructor; [done|]. apply Forall_forall.
  intros r' Hr'. apply list_elem_of_In, filter_In in Hr' as [Hin Hk].
  apply list_elem_of_In in Hin.
  rewrite Forall_forall in Hall. apply (Hall r' Hin).
  - eapply leb_number_r, Hkeep; [left|done].
  - eapply leb_number_r, Hkeep; [by right|done].
Qed.

Lemma search_kept_by_decreasing_similarity query top_k m rs keep t :
  search generate_embedding inner_product query top_k m = Ok rs →
  (∀ r, r ∈ rs → keep r = true → PrimFloat.leb t (sr_similarity r) = true) →
  by_decreasing_similarity (List.filter keep rs).
Proof.
  intros [_ Hrs%join_results_Ok]%search_Ok Hkeep.
  apply (filter_by_decreasing_similarity keep t); [done|].
  eapply joined_ranked; [exact Hrs|]. apply real_hits_search_ranked.
Qed.

(** In such a list no result is above the first one. *)
Lemma not_above_first high best rest r :
  by_decreasing_similarity (best :: rest) →
  PrimFloat.ltb high (sr_similarity best) = false →
  r ∈ best :: rest →
  PrimFloat.ltb high (sr_similarity r) = false.
Proof.
  intros [_ Hall]%StronglySorted_inv Hbest [->|Hr]%elem_of_cons; [done|].
  rewrite Forall_forall in Hall.
  destruct (PrimFloat.ltb high (sr_similarity r)) eqn:Hhigh; [|done].
  rewrite <- Hbest. symmetry.
  eapply ltb_leb_trans; [exact Hhigh|]. by apply Hall.
Qed.

Lemma search_empty_index query top_k m :
  (0 < top_k)%nat →
  index m = [] → search generate_embedding inner_product query top_k m = Ok [].
Proof.
  intros Hk Hempty. rewrite search_positive by done.
  destruct (join_results_total (faqs (metadata m))
              (Faiss.search inner_product (generate_embedding query) top_k (index m)))
    as [rs Hrs].
  - intros h. rewrite real_hits_search, Hempty. simpl. rewrite take_nil.
    intros Hh. inversion Hh.
  - rewrite Hrs. f_equal.
    apply join_results_Ok in Hrs. rewrite real_hits_search, Hempty in Hrs.
    simpl in Hrs. rewrite take_nil in Hrs. by inversion Hrs.
Qed.

(** C8. A query for at least one result against a model whose index holds
    no vector returns the alternatives answer with an empty list, whatever
    the threshold and the metadata.  Whenever [search]
    returns, it returns at most [min top_k ntotal] items, and each of them
    is the metadata entry of a position that holds a vector, with the inner
    product of the query and that vector as its similarity: the [-1] slots
    of FAISS never reach the caller. *)
Theorem search_returns_only_real_matches :
  (∀ high input m,
     index m = [] → (0 < top_k input)%nat →
     query generate_embedding inner_product high input m = Ok (Alternatives [])) ∧
  (∀ query top_k m rs,
     search generate_embedding inner_product query top_k m = Ok rs →
     (length rs ≤ top_k `min` length (index m))%nat ∧
     ∀ r, r ∈ rs →
       ∃ i x f, index m !! i = Some x ∧
         PyDict.get (Z.of_nat i) (faqs (metadata m)) = Some f ∧
         r = {| sr_id := id f; sr_question := question f; sr_answer := answer f;
                sr_similarity := inner_product (generate_embedding query) x |}).
Proof.
  split.
  - intros high input m Hempty Hk. unfold query.
    by rewrite search_empty_index.
  - intros query top_k m rs [_ Hrs]%search_Ok.
    apply join_results_Ok in Hrs. split.
    + rewrite <- (Forall2_length _ _ _ Hrs), length_real_hits_search. done.
    + intros r [n Hn]%list_elem_of_lookup.
      destruct (Forall2_lookup_r _ _ _ _ _ Hrs Hn) as ([s l] & Hh & f & Hf & ->).
      apply list_elem_of_lookup_2, elem_of_real_hits_search in Hh
        as (i & x & Hx & -> & ->).
      by exists i, x, f.
Qed.

(** C9. [search] reads the metadata entry of every position FAISS returns.
    If the metadata has an entry for every position of the index, [search]
    (for at least one result) returns, and its items are, in order, the entries stored under the
    returned positions, each with the score of its position.  If one
    returned position has no entry, [search] raises [KeyError] for a
    position that has none. *)
Theorem search_needs_dense_metadata :
  (∀ query top_k m,
     (0 < top_k)%nat →
     (∀ p, 0 ≤ p < Faiss.ntotal (index m) →
           is_Some (PyDict.get p (faqs (metadata m)))) →
     ∃ rs, search generate_embedding inner_product query top_k m = Ok rs ∧
       Forall2 (joined (faqs (metadata m)))
         (real_hits (Faiss.search inner_product (generate_embedding query)
                       top_k (index m))) rs) ∧
  (∀ query top_k m h,
     h ∈ real_hits (Faiss.search inner_product (generate_embedding query)
                      top_k (index m)) →
     PyDict.get h.2 (faqs (metadata m)) = None →
     ∃ key, search generate_embedding inner_product query top_k m
              = Raise (KeyError key) ∧
            PyDict.get key (faqs (metadata m)) = None).
Proof.
  split.
  - intros query top_k m Hk Hall. rewrite search_positive by done.
    destruct (join_results_total (faqs (metadata m))
                (Faiss.search inner_product (generate_embedding query) top_k (index m)))
      as [rs Hrs].
    + intros [s l] (i & x & Hx & _ & ->)%elem_of_real_hits_search. simpl.
      apply Hall. apply lookup_lt_Some in Hx. unfold Faiss.ntotal. lia.
    + exists rs. split; [done|]. by apply join_results_Ok.
  - intros query top_k m h Hin Hnone. rewrite search_positive.
    + by apply (join_results_KeyError _ _ h).
    + destruct top_k; [|lia]. rewrite real_hits_search in Hin. inversion Hin.
Qed.

(** ** [query] *)

Lemma elem_of_filter_passes t (rs : list SearchResult) r :
  r ∈ List.filter (passes t) rs ↔
  r ∈ rs ∧ PrimFloat.leb t (sr_similarity r) = true.
Proof. rewrite !list_elem_of_In. apply filter_In. Qed.

Lemma classify_cons high best rest :
  classify high (best :: rest) =
    if PrimFloat.ltb high (sr_similarity best)
    then BestMatch (sr_question best) (sr_answer best) (sr_similarity best)
    else Alternatives (alternative_of <$> best :: rest).
Proof. done. Qed.

(** C5. Let [search] return [rs].  A candidate is kept by the filter exactly
    when [threshold <= similarity].  [query] returns the best-match answer
    exactly when a candidate is kept and the first kept one has
    [similarity > high]; it is then the question, answer and similarity of
    that candidate, and otherwise the list of all kept candidates as id,
    question and similarity.  The first kept candidate is the best one:
    [search] lists the candidates by decreasing score, so the kept ones come
    by decreasing similarity, no kept candidate has a higher similarity than
    the first, and the best-match answer is returned exactly when some kept
    candidate has [similarity > high].  With threshold 0.6 and
    high-confidence threshold 0.8: when the first kept candidate has
    similarity exactly 0.8 the answer is the list of alternatives, with
    that candidate in it; a candidate with similarity exactly 0.6 is kept,
    and is in the list whenever alternatives are returned. *)
Theorem query_threshold_boundaries :
  (∀ high input m rs,
     search generate_embedding inner_product (query_text input) (top_k input) m
       = Ok rs →
     let filtered := List.filter (passes (threshold input)) rs in
     let answer := query generate_embedding inner_product high input m in
     (∀ r, r ∈ filtered ↔
           r ∈ rs ∧ PrimFloat.leb (threshold input) (sr_similarity r) = true) ∧
     ((∃ q a s, answer = Ok (BestMatch q a s)) ↔
      (∃ best rest, filtered = best :: rest ∧
                    PrimFloat.ltb high (sr_similarity best) = true)) ∧
     (∀ best rest, filtered = best :: rest →
        PrimFloat.ltb high (sr_similarity best) = true →
        answer = Ok (BestMatch (sr_question best) (sr_answer best)
                               (sr_similarity best))) ∧
     ((∀ best rest, filtered = best :: rest →
         PrimFloat.ltb high (sr_similarity best) = false) →
        answer = Ok (Alternatives (alternative_of <$> filtered))) ∧
     by_decreasing_similarity filtered ∧
     (∀ best rest, filtered = best :: rest →
        ∀ r, r ∈ rs →
          PrimFloat.leb (threshold input) (sr_similarity r) = true →
          PrimFloat.leb (sr_similarity r) (sr_similarity best) = true) ∧
     ((∃ q a s, answer = Ok (BestMatch q a s)) ↔
      (∃ r, r ∈ rs ∧
            PrimFloat.leb (threshold input) (sr_similarity r) = true ∧
            PrimFloat.ltb high (sr_similarity r) = true))) ∧
  (∀ input m rs,
     threshold input = float_0_6 →
     search generate_embedding inner_product (query_text input) (top_k input) m
       = Ok rs →
     let answer := query generate_embedding inner_product float_0_8 input m in
     (∀ best rest,
        List.filter (passes float_0_6) rs = best :: rest →
        sr_similarity best = float_0_8 →
        ∃ alts, answer = Ok (Alternatives alts) ∧
                (sr_id best, sr_question best, float_0_8) ∈ alts) ∧
     (∀ r, r ∈ rs → sr_similarity r = float_0_6 →
        r ∈ List.filter (passes float_0_6) rs ∧
        ∀ alts, answer = Ok (Alternatives alts) →
                (sr_id r, sr_question r, float_0_6) ∈ alts)).
Proof.
  split.
  - intros high input m rs Hrs filtered answer.
    assert (answer = Ok (classify high filtered)) as Hanswer.
    { unfold answer, query. by rewrite Hrs. }
    split; [intros r; apply elem_of_filter_passes|].
    assert (by_decreasing_similarity filtered) as Hsorted.
    { by apply (search_kept_by_decreasing_similarity _ _ _ _ _
                  (threshold input) Hrs). }
    assert (∀ best rest, filtered = best :: rest →
              ∀ r, r ∈ rs →
                PrimFloat.leb (threshold input) (sr_similarity r) = true →
                PrimFloat.leb (sr_similarity r) (sr_similarity best) = true)
      as Hbest.
    { intros best rest Heq r Hr Hkept.
      assert (r ∈ filtered) as Hin by by apply elem_of_filter_passes.
      rewrite Heq in Hin, Hsorted.
      apply StronglySorted_inv in Hsorted as [_ Hall].
      apply elem_of_cons in Hin as [->|Hin].
      - by eapply leb_number_r.
      - rewrite Forall_forall in Hall. by apply Hall. }
    rewrite Hanswer. split_and!.
    + split.
      * intros (q & a & s & Heq). destruct filtered as [|best rest]; [done|].
        exists best, rest. split; [done|]. rewrite classify_cons in Heq.
        by destruct (PrimFloat.ltb high (sr_similarity best)).
      * intros (best & rest & -> & Hhigh). rewrite classify_cons, Hhigh. eauto.
    + intros best rest -> Hhigh. by rewrite classify_cons, Hhigh.
    + intros Hlow. destruct filtered as [|best rest]; [done|].
      by rewrite classify_cons, (Hlow best rest).
    + done.
    + done.
    + split.
      * intros (q & a & s & Heq).
        destruct filtered as [|best rest] eqn:Hf; [done|].
        rewrite classify_cons in Heq.
        destruct (PrimFloat.ltb high (sr_similarity best)) eqn:Hhigh; [|done].
        assert (best ∈ List.filter (passes (threshold input)) rs) as Hin.
        { fold filtered. rewrite Hf. left. }
        apply elem_of_filter_passes in Hin as [Hin Hkept].
        by exists best.
      * intros (r & Hr & Hkept & Hhigh).
        destruct filtered as [|best rest] eqn:Hf.
        { assert (r ∈ List.filter (passes (threshold input)) rs) as Hin
            by by apply elem_of_filter_passes.
          fold filtered in Hin. rewrite Hf in Hin. inversion Hin. }
        rewrite classify_cons.
        rewrite (ltb_leb_trans _ _ _ Hhigh (Hbest best rest eq_refl r Hr Hkept)).
        eauto.
  - intros input m rs Ht Hrs answer.
    assert (answer = Ok (classify float_0_8 (List.filter (passes float_0_6) rs)))
      as Hanswer.
    { unfold answer, query. by rewrite Hrs, Ht. }
    rewrite Hanswer. split.
    + intros best rest Hf Hs. rewrite Hf, classify_cons, Hs.
      replace (PrimFloat.ltb float_0_8 float_0_8) with false by done.
      eexists. split; [done|]. rewrite fmap_cons. unfold alternative_of at 1.
      rewrite Hs. left.
    + intros r Hin Hs.
      assert (r ∈ List.filter (passes float_0_6) rs) as Hkept.
      { apply elem_of_filter_passes. split; [done|]. by rewrite Hs. }
      split; [done|]. intros alts Halts.
      assert (alts = alternative_of <$> List.filter (passes float_0_6) rs) as ->.
      { destruct (List.filter (passes float_0_6) rs) as [|best rest]; [inversion Hkept|].
        rewrite classify_cons in Halts.
        destruct (PrimFloat.ltb float_0_8 (sr_similarity best)); by injection Halts. }
      apply list_elem_of_fmap. exists r. split; [|done].
      unfold alternative_of. by rewrite Hs.
Qed.

(** ** [add_or_update_faq] *)

(** What the update branch does to a model with dense keys: one vector is
    cut out and the new one appended, while the metadata only receives the
    new entry under the last key; no other key moves. *)
Lemma add_or_update_faq_existing now faq_id q a m p :
  dense m → find_idx faq_id (faqs (metadata m)) = Some p →
  let r := add_or_update_faq generate_embedding now faq_id q a m in
  r.1 = Faiss.ntotal (index m) - 1 ∧
  index r.2 = take (Z.to_nat p) (index m) ++ drop (S (Z.to_nat p)) (index m)
                ++ [generate_embedding q] ∧
  faqs (metadata r.2) =
    PyDict.set (Faiss.ntotal (index m) - 1)
      {| id := faq_id; question := q; answer := a |} (faqs (metadata m)) ∧
  PyDict.keys (faqs (metadata r.2)) = PyDict.keys (faqs (metadata m)).
Proof.
  intros Hd Hfind. pose proof Hd as [Hwf Hk].
  pose proof (find_idx_position _ _ _ Hd Hfind) as Hp.
  unfold add_or_update_faq. rewrite Hfind. simpl.
  rewrite ntotal_remove_ids by done. split_and!; [done| |done|].
  - unfold Faiss.add. rewrite remove_ids_position by lia. by rewrite <- app_assoc.
  - apply keys_set_present, Hk. lia.
Qed.

(** C2, at the failing input.  Ids 10, 20, 30 sit at positions 0, 1, 2 and
    id 10 is written again.  The index becomes the vectors of 20, 30 and the
    new vector of 10, so the new position of 10 is 2; the metadata keeps the
    old entry of id 10 under key 0 and the entry of id 20 under key 1, and
    the new entry replaces the one of id 30 under key 2.  No key was moved
    down: the renumbered metadata would read 20, 30, 10. *)
Theorem add_or_update_faq_keeps_old_positions
    now (v0 v1 v2 : vec) q0 q1 q2 a0 a1 a2 q a lu cc sv :
  let f10 := {| id := 10; question := q0; answer := a0 |} in
  let f20 := {| id := 20; question := q1; answer := a1 |} in
  let f30 := {| id := 30; question := q2; answer := a2 |} in
  let m := {| index := [v0; v1; v2];
              metadata := {| faqs := [(0, f10); (1, f20); (2, f30)];
                             last_updated := lu; consistency_check := cc |};
              saved := sv |} in
  let r := add_or_update_faq generate_embedding now 10 q a m in
  r.1 = 2 ∧
  index r.2 = [v1; v2; generate_embedding q] ∧
  faqs (metadata r.2) =
    [(0, f10); (1, f20); (2, {| id := 10; question := q; answer := a |})] ∧
  positions r.2 = [(0, 10); (1, 20); (2, 10)] ∧
  positions r.2 ≠ [(0, 20); (1, 30); (2, 10)].
Proof. by intros. Qed.

(** C1, at the failing input.  Creating ids 10, 20, 30 and then writing id 10
    again gives a reachable model whose keys are still exactly the positions
    of the index, but in which id 10 sits at two positions (and id 30 at
    none). *)
Theorem reachable_with_duplicate_id :
  let m := run generate_embedding
             [CreateOrUpdate "t1" 10 "q10" None;
              CreateOrUpdate "t2" 20 "q20" None;
              CreateOrUpdate "t3" 30 "q30" None;
              CreateOrUpdate "t4" 10 "q10 again" None] new_model in
  reachable generate_embedding m ∧
  dense m ∧
  positions m = [(0, 10); (1, 20); (2, 10)] ∧
  ¬ ids_unique m.
Proof.
  intros m.
  assert (reachable generate_embedding m) as Hr by (by eexists).
  split_and!; [done|by apply reachable_dense|done|].
  unfold ids_unique. intros [Hin _]%NoDup_cons. apply Hin.
  right. left.
Qed.

(** ** [delete_faq] *)

Lemma delete_faq_known now faq_id m p :
  dense m → find_idx faq_id (faqs (metadata m)) = Some p →
  let m' := (delete_faq now faq_id m).2 in
  (delete_faq now faq_id m).1 = true ∧
  index m' = take (Z.to_nat p) (index m) ++ drop (S (Z.to_nat p)) (index m) ∧
  Faiss.ntotal (index m') = Faiss.ntotal (index m) - 1 ∧
  faqs (metadata m') = renumbered p (faqs (metadata m)) ∧
  (∀ k f, PyDict.get k (faqs (metadata m)) = Some f → k < p →
          PyDict.get k (faqs (metadata m')) = Some f) ∧
  (∀ k f, PyDict.get k (faqs (metadata m)) = Some f → p < k →
          PyDict.get (k - 1) (faqs (metadata m')) = Some f).
Proof.
  intros Hd Hfind. pose proof Hd as [Hwf _].
  pose proof (find_idx_position _ _ _ Hd Hfind) as Hp.
  unfold delete_faq. rewrite Hfind. simpl. rewrite renumber_spec by done.
  assert (∀ k f, PyDict.get k (faqs (metadata m)) = Some f → k ≠ p →
    PyDict.get (shift_down p k) (renumbered p (faqs (metadata m))) = Some f) as Hget.
  { intros k f Hk Hne. apply elem_get; [by apply wf_renumbered|].
    apply elem_of_renumbered; [by apply get_Some_elem | done]. }
  split_and!; [done| |by apply ntotal_remove_ids|done| |].
  - apply remove_ids_position. lia.
  - intros k f Hk Hlt. specialize (Hget k f Hk). unfold shift_down in Hget.
    destruct (Z.ltb_spec p k); [lia|]. apply Hget. lia.
  - intros k f Hk Hlt. specialize (Hget k f Hk). unfold shift_down in Hget.
    destruct (Z.ltb_spec p k); [|lia]. apply Hget. lia.
Qed.

(** C3. In a model whose metadata keys are the positions of the index:
    [delete_faq] answers [False] when no entry carries the FAQ id; when an
    entry does, it answers [True], the vector at the position [p] of that id
    is cut out of the index (the other vectors keep their order, the index
    has one vector less), the entry of [p] is gone, every entry below [p]
    keeps its position and every entry above [p] is found one position lower.
    With ids 10, 20, 30, 40 at positions 0, 1, 2, 3, deleting id 30 leaves ids
    10, 20, 40 at positions 0, 1, 2 and the vectors of positions 0, 1, 3. *)
Theorem delete_faq_renumbers :
  (∀ now faq_id m, dense m →
     ((∀ idx f, (idx, f) ∈ faqs (metadata m) → id f ≠ faq_id) →
        (delete_faq now faq_id m).1 = false) ∧
     (∀ idx f, (idx, f) ∈ faqs (metadata m) → id f = faq_id →
        ∃ p g, (p, g) ∈ faqs (metadata m) ∧ id g = faq_id ∧
          let m' := (delete_faq now faq_id m).2 in
          (delete_faq now faq_id m).1 = true ∧
          index m' = take (Z.to_nat p) (index m) ++ drop (S (Z.to_nat p)) (index m) ∧
          Faiss.ntotal (index m') = Faiss.ntotal (index m) - 1 ∧
          faqs (metadata m') = renumbered p (faqs (metadata m)) ∧
          PyDict.get p (faqs (metadata m')) = PyDict.get (p + 1) (faqs (metadata m)) ∧
          (∀ k f, PyDict.get k (faqs (metadata m)) = Some f → k < p →
                  PyDict.get k (faqs (metadata m')) = Some f) ∧
          (∀ k f, PyDict.get k (faqs (metadata m)) = Some f → p < k →
                  PyDict.get (k - 1) (faqs (metadata m')) = Some f) ∧
          dense m')) ∧
  (∀ now (v0 v1 v2 v3 : vec) q0 q1 q2 q3 a0 a1 a2 a3 lu cc sv,
     let m := {| index := [v0; v1; v2; v3];
                 metadata :=
                   {| faqs := [(0, {| id := 10; question := q0; answer := a0 |});
                               (1, {| id := 20; question := q1; answer := a1 |});
                               (2, {| id := 30; question := q2; answer := a2 |});
                               (3, {| id := 40; question := q3; answer := a3 |})];
                      last_updated := lu; consistency_check := cc |};
                 saved := sv |} in
     (delete_faq now 30 m).1 = true ∧
     positions (delete_faq now 30 m).2 = [(0, 10); (1, 20); (2, 40)] ∧
     index (delete_faq now 30 m).2 = [v0; v1; v3]).
Proof.
  split; [|by intros].
  intros now faq_id m Hd. split.
  - intros Hnone. unfold delete_faq.
    by rewrite (proj2 (find_idx_None faq_id _) Hnone).
  - intros idx f Hin Hid.
    destruct (find_idx faq_id (faqs (metadata m))) as [p|] eqn:Hfind.
    + destruct (find_idx_Some _ _ _ Hfind) as (g & Hg & Hgid).
      exists p, g. split; [done|]. split; [done|].
      destruct (delete_faq_known now faq_id m p Hd Hfind)
        as (H1 & H2 & H3 & H4 & H5 & H6).
      split_and!; try done.
      * pose proof Hd as [Hwf Hk].
        destruct (PyDict.get (p + 1) (faqs (metadata m))) as [h|] eqn:Hnext.
        -- rewrite <- (H6 (p + 1) h Hnext) by lia. f_equal. lia.
        -- apply get_None. rewrite H4, elem_of_keys_renumbered.
           intros (k & Hkin & Hne & Hsh). unfold shift_down in Hsh.
           apply get_None in Hnext.
           destruct (Z.ltb_spec p k); [|lia].
           by replace (p + 1) with k in Hnext by lia.
      * pose proof (dense_delete_faq now faq_id m Hd) as Hd'. done.
    + by destruct (proj1 (find_idx_None faq_id _) Hfind idx f).
Qed.

(** ** [perform_check] *)

Lemma run_app ops1 ops2 m :
  run generate_embedding (ops1 ++ ops2) m =
    run generate_embedding ops2 (run generate_embedding ops1 m).
Proof. apply foldl_app. Qed.

Lemma add_missing_run clock (missing : gset Z) fs n m :
  ∃ ts, length ts = length (filter (λ f, id f ∈ missing) fs) ∧
    (add_missing generate_embedding clock missing fs n m).2 =
      run generate_embedding (creations ts (filter (λ f, id f ∈ missing) fs)) m.
Proof.
  revert n m. induction fs as [|f fs IH]; intros n m; simpl.
  - by exists [].
  - destruct (decide (id f ∈ missing)) as [Hin|Hout].
    + rewrite bool_decide_eq_true_2, filter_cons_True by done.
      destruct (IH (S n)
        (add_or_update_faq generate_embedding (clock n) (id f) (question f)
           (answer f) m).2) as (ts & Hlen & Hrun).
      exists (clock n :: ts). simpl. split; [by rewrite Hlen | done].
    + rewrite bool_decide_eq_false_2, filter_cons_False by done. apply IH.
Qed.

Lemma remove_orphaned_run clock ids n m :
  ∃ ts, length ts = length ids ∧
    (remove_orphaned clock ids n m).2 = run generate_embedding (deletions ts ids) m.
Proof.
  revert n m. induction ids as [|i ids IH]; intros n m; simpl.
  - by exists [].
  - destruct (delete_faq (clock n) i m) as [found m'] eqn:Hdel.
    destruct (IH (if found then S n else n) m') as (ts & Hlen & Hrun).
    exists (clock n :: ts). simpl. split; [by rewrite Hlen|].
    by rewrite Hdel.
Qed.

Lemma perform_check_fetched clock fs m :
  let postgres_faq_ids : gset Z := list_to_set (id <$> fs) in
  let missing := postgres_faq_ids ∖ faiss_ids m in
  let orphaned := faiss_ids m ∖ postgres_faq_ids in
  let added := add_missing generate_embedding clock missing fs 0 m in
  perform_check generate_embedding clock (HttpResponse 200 (inr fs)) m =
    ((remove_orphaned clock (elements orphaned) added.1 added.2).2,
     {| status := if bool_decide (missing ≠ ∅ ∨ orphaned ≠ ∅)
                  then "reindexed" else "consistent";
        faqs_total := Z.of_nat (length fs);
        missing_in_faiss := elements missing;
        orphaned_in_faiss := elements orphaned;
        error := None |}).
Proof.
  intros. unfold perform_check. simpl.
  fold postgres_faq_ids. fold missing. fold orphaned.
  destruct (add_missing generate_embedding clock missing fs 0 m) as [n m1] eqn:Hadd.
  subst added. simpl.
  by destruct (remove_orphaned clock (elements orphaned) n m1).
Qed.

(** C6. When the listing arrives with status 200, [perform_check] reports
    as missing exactly the ids of the listing that no metadata entry carries
    and as orphaned exactly the ids of the metadata that the listing lacks;
    the model it leaves is the one obtained by one [add_or_update_faq] per
    listed record with a missing id, with the question and answer of that
    record, followed by one [delete_faq] per orphaned id; the status is
    ["reindexed"] when one of the two lists is not empty and ["consistent"]
    when both are.  With ids 1, 2, 3 listed and ids 2, 3, 4 indexed, the run
    reports missing [1], orphaned [4] and ["reindexed"], the metadata then
    carries ids 2, 3, 1, and a second run reports ["consistent"] with both
    lists empty and changes nothing. *)
Theorem perform_check_reconciles :
  (∀ clock fs m,
     let out := perform_check generate_embedding clock (HttpResponse 200 (inr fs)) m in
     (∀ i, i ∈ missing_in_faiss out.2 ↔
           (∃ f, f ∈ fs ∧ id f = i) ∧
           ¬ (∃ k f, (k, f) ∈ faqs (metadata m) ∧ id f = i)) ∧
     (∀ i, i ∈ orphaned_in_faiss out.2 ↔
           (∃ k f, (k, f) ∈ faqs (metadata m) ∧ id f = i) ∧
           ¬ (∃ f, f ∈ fs ∧ id f = i)) ∧
     NoDup (missing_in_faiss out.2) ∧
     NoDup (orphaned_in_faiss out.2) ∧
     (∃ ts1 ts2,
        let to_add := filter (λ f, id f ∈ missing_in_faiss out.2) fs in
        length ts1 = length to_add ∧
        length ts2 = length (orphaned_in_faiss out.2) ∧
        out.1 = run generate_embedding
                  (creations ts1 to_add ++
                   deletions ts2 (orphaned_in_faiss out.2)) m) ∧
     (missing_in_faiss out.2 ≠ [] ∨ orphaned_in_faiss out.2 ≠ [] →
        status out.2 = "reindexed") ∧
     (missing_in_faiss out.2 = [] ∧ orphaned_in_faiss out.2 = [] →
        status out.2 = "consistent") ∧
     faqs_total out.2 = Z.of_nat (length fs) ∧
     error out.2 = None) ∧
  (∀ clock1 clock2,
     let m := run generate_embedding
                [CreateOrUpdate "t1" 2 "q2" None;
                 CreateOrUpdate "t2" 3 "q3" None;
                 CreateOrUpdate "t3" 4 "q4" None] new_model in
     let fs := [{| id := 1; question := "p1"; answer := Some "a1" |};
                {| id := 2; question := "p2"; answer := Some "a2" |};
                {| id := 3; question := "p3"; answer := Some "a3" |}] in
     let first := perform_check generate_embedding clock1 (HttpResponse 200 (inr fs)) m in
     let second := perform_check generate_embedding clock2 (HttpResponse 200 (inr fs)) first.1 in
     positions m = [(0, 2); (1, 3); (2, 4)] ∧
     missing_in_faiss first.2 = [1] ∧
     orphaned_in_faiss first.2 = [4] ∧
     status first.2 = "reindexed" ∧
     positions first.1 = [(0, 2); (1, 3); (2, 1)] ∧
     PyDict.get 2 (faqs (metadata first.1)) =
       Some {| id := 1; question := "p1"; answer := Some "a1" |} ∧
     index first.1 = [generate_embedding "q2"; generate_embedding "q3";
                      generate_embedding "p1"] ∧
     missing_in_faiss second.2 = [] ∧
     orphaned_in_faiss second.2 = [] ∧
     status second.2 = "consistent" ∧
     second.1 = first.1).
Proof.
  split.
  - intros clock fs m out.
    set (postgres_faq_ids := list_to_set (id <$> fs) : gset Z).
    set (missing := postgres_faq_ids ∖ faiss_ids m).
    set (orphaned := faiss_ids m ∖ postgres_faq_ids).
    assert (∀ i, i ∈ postgres_faq_ids ↔ ∃ f, f ∈ fs ∧ id f = i) as Hpg.
    { intros i. unfold postgres_faq_ids.
      rewrite elem_of_list_to_set, list_elem_of_fmap. split.
      - intros (f & -> & Hin). by exists f.
      - intros (f & Hin & <-). by exists f. }
    assert (∀ i, i ∈ faiss_ids m ↔ ∃ k f, (k, f) ∈ faqs (metadata m) ∧ id f = i)
      as Hfa.
    { intros i. unfold faiss_ids.
      rewrite elem_of_list_to_set, list_elem_of_fmap. split.
      - intros ([k f] & -> & Hin). by exists k, f.
      - intros (k & f & Hin & <-). by exists (k, f). }
    unfold out. rewrite perform_check_fetched. simpl.
    fold postgres_faq_ids. fold missing. fold orphaned.
    split_and!; try done.
    + intros i. unfold missing.
      by rewrite elem_of_elements, elem_of_difference, Hpg, Hfa.
    + intros i. unfold orphaned.
      by rewrite elem_of_elements, elem_of_difference, Hpg, Hfa.
    + apply NoDup_elements.
    + apply NoDup_elements.
    + destruct (add_missing_run clock missing fs 0%nat m) as (ts1 & Hl1 & Hr1).
      destruct (remove_orphaned_run clock (elements orphaned)
                  (add_missing generate_embedding clock missing fs 0 m).1
                  (add_missing generate_embedding clock missing fs 0 m).2)
        as (ts2 & Hl2 & Hr2).
      assert (filter (λ f, id f ∈ elements missing) fs
              = filter (λ f, id f ∈ missing) fs) as Hfilter.
      { apply list_filter_iff. intros f. apply elem_of_elements. }
      exists ts1, ts2. simpl. rewrite Hfilter. split_and!; [done..|].
      by rewrite run_app, <- Hr1, <- Hr2.
    + intros Hne. rewrite bool_decide_eq_true_2; [done|].
      destruct Hne as [Hne|Hne]; [left|right]; intros Heq; apply Hne;
        rewrite Heq; apply elements_empty.
    + intros [Hm Ho]. rewrite bool_decide_eq_false_2; [done|].
      apply elements_empty_inv, leibniz_equiv in Hm, Ho. tauto.
  - intros. by vm_compute.
Qed.

(** C7, at the failing input.  A response with status 500 leaves the model
    as it was, but [result] too: the status stays ["checking"] and no error
    message is recorded.  The two other failures of the fetch, a raising
    [httpx.get] and a body that does not decode, leave the model as it was
    and end with status ["error"] and the message. *)
Theorem perform_check_non_200_stays_checking clock body m msg :
  perform_check generate_embedding clock (HttpResponse 500 body) m
    = (m, initial_result) ∧
  status initial_result = "checking" ∧
  error initial_result = None ∧
  perform_check generate_embedding clock (HttpRaises msg) m
    = (m, failed initial_result msg) ∧
  perform_check generate_embedding clock (HttpResponse 200 (inl msg)) m
    = (m, failed initial_result msg) ∧
  status (failed initial_result msg) = "error" ∧
  error (failed initial_result msg) = Some msg.
Proof. done. Qed.

(** ** The stored consistency check *)

Lemma stored_add_or_update_faq now faq_id q a m :
  consistency_check (metadata (add_or_update_faq generate_embedding now faq_id q a m).2)
    = consistency_check (metadata m).
Proof. done. Qed.

Lemma stored_delete_faq now faq_id m :
  consistency_check (metadata m) = None →
  consistency_check (metadata (delete_faq now faq_id m).2) = None.
Proof.
  intros H. unfold delete_faq.
  by destruct (find_idx faq_id (faqs (metadata m))).
Qed.

Lemma stored_add_missing clock (missing : gset Z) fs n m :
  consistency_check
    (metadata (add_missing generate_embedding clock missing fs n m).2)
    = consistency_check (metadata m).
Proof.
  revert n m. induction fs as [|f fs IH]; intros n m; simpl; [done|].
  destruct (bool_decide (id f ∈ missing)); [|apply IH].
  rewrite IH. apply stored_add_or_update_faq.
Qed.

Lemma stored_remove_orphaned clock ids n m :
  consistency_check (metadata m) = None →
  consistency_check (metadata (remove_orphaned clock ids n m).2) = None.
Proof.
  revert n m. induction ids as [|i ids IH]; intros n m Hm; simpl; [done|].
  pose proof (stored_delete_faq (clock n) i m Hm) as Hdel.
  destruct (delete_faq (clock n) i m) as [found m']. by apply IH.
Qed.

(** What [save_consistency_result] would make retrievable. *)
Lemma save_consistency_result_retrievable now now' r m :
  get_consistency_status (save_consistency_result now now' r m)
    = LastCheck (now, r).
Proof. done. Qed.

(** No run of the consistency check stores a result. *)
Lemma perform_check_stores_nothing clock resp m :
  consistency_check (metadata m) = None →
  consistency_check (metadata (perform_check generate_embedding clock resp m).1)
    = None.
Proof.
  intros Hm. destruct resp as [msg|code [msg|fs]]; simpl; [done| |].
  - by destruct (negb (Z.eqb code 200)).
  - destruct (negb (Z.eqb code 200)); [done|].
    pose proof (stored_add_missing clock
      (list_to_set (id <$> fs) ∖ faiss_ids m) fs 0 m) as Hadd.
    destruct (add_missing _ _ _ _ _ _) as [n m1]. simpl in Hadd.
    rewrite Hm in Hadd.
    pose proof (stored_remove_orphaned clock
      (elements (faiss_ids m ∖ list_to_set (id <$> fs))) n m1 Hadd) as Hrem.
    by destruct (remove_orphaned _ _ _ _) as [n' m2].
Qed.

(** C4, at the failing input.  Whatever the fetch does, after the check has
    run on a fresh model the status query still answers that no check was
    ever run; so it does after the run that reports ["reindexed"] for a
    listing of three FAQs, whose result is in no file either. *)
Theorem consistency_status_never_run_after_check clock resp :
  let fs := [{| id := 1; question := "p1"; answer := Some "a1" |};
             {| id := 2; question := "p2"; answer := Some "a2" |};
             {| id := 3; question := "p3"; answer := Some "a3" |}] in
  let out := perform_check generate_embedding clock (HttpResponse 200 (inr fs))
               new_model in
  get_consistency_status (vec := vec) new_model = NeverRun ∧
  get_consistency_status
    (check_and_reindex generate_embedding clock resp new_model).2 = NeverRun ∧
  status out.2 = "reindexed" ∧
  positions out.1 = [(0, 1); (1, 2); (2, 3)] ∧
  consistency_check (metadata out.1) = None ∧
  (λ written, consistency_check written.2) <$> saved out.1 = Some None.
Proof.
  intros fs out. split_and!; try done.
  unfold get_consistency_status, check_and_reindex. simpl.
  by rewrite perform_check_stores_nothing.
Qed.

(** C10. [delete_faq] on a FAQ id that no entry of the metadata carries
    returns [False] and leaves the whole model as it was: the same index,
    the same metadata (no renumbering, no new [last_updated]) and the same
    files on disk. *)
Theorem delete_faq_unknown_unchanged now faq_id m :
  (∀ idx f, (idx, f) ∈ faqs (metadata m) → id f ≠ faq_id) →
  delete_faq now faq_id m = (false, m).
Proof.
  intros H. unfold delete_faq.
  by rewrite (proj2 (find_idx_None faq_id _) H).
Qed.

End Properties.

(** * The statements at work on the toy instance *)

Lemma dense_three : dense Demo.three.
Proof. apply (reachable_dense Demo.embed). by eexists. Qed.

Lemma delete_faq_unknown_unchanged_witness :
  delete_faq "t4" 40 Demo.three = (false, Demo.three).
Proof.
  apply delete_faq_unknown_unchanged.
  intros idx f Hin. vm_compute in Hin.
  repeat (apply elem_of_cons in Hin as [[= -> ->]|Hin]; [done|]).
  inversion Hin.
Defined.

Lemma delete_faq_renumbers_witness :
  (delete_faq "t4" 40 Demo.three).1 = false ∧
  ∃ p g, (p, g) ∈ faqs (metadata Demo.three) ∧ id g = 20 ∧
    (delete_faq "t4" 20 Demo.three).1 = true ∧
    PyDict.get p (faqs (metadata (delete_faq "t4" 20 Demo.three).2))
      = PyDict.get (p + 1) (faqs (metadata Demo.three)) ∧
    dense (delete_faq "t4" 20 Demo.three).2.
Proof.
  split.
  - apply (proj1 delete_faq_renumbers "t4" 40 Demo.three dense_three).
    intros idx f Hin. vm_compute in Hin.
    repeat (apply elem_of_cons in Hin as [[= -> ->]|Hin]; [done|]).
    inversion Hin.
  - destruct (proj1 delete_faq_renumbers "t4" 20 Demo.three dense_three)
      as [_ Hknown].
    destruct (Hknown 1 {| id := 20; question := "q20"; answer := None |})
      as (p & g & Hin & Hid & Htrue & _ & _ & _ & Hnext & _ & _ & Hd).
    + right. left.
    + done.
    + by exists p, g.
Defined.

Lemma query_threshold_boundaries_witness :
  (∃ alts,
     query Demo.embed Demo.ip float_0_8 (Demo.ask "q20") Demo.three
       = Ok (Alternatives alts) ∧
     (20, "q20", float_0_8) ∈ alts ∧
     (10, "q10", float_0_6) ∈ alts) ∧
  (∃ q a s,
     query Demo.embed Demo.ip float_0_6 (Demo.ask "q30") Demo.three
       = Ok (BestMatch q a s)).
Proof.
  pose (hit i q s := {| sr_id := i; sr_question := q; sr_answer := None;
                        sr_similarity := s |}).
  split.
  - pose (rs := [hit 20 "q20" float_0_8; hit 10 "q10" float_0_6;
                 hit 30 "q30" float_0_6]).
    destruct (proj2 (query_threshold_boundaries Demo.embed Demo.ip)
                (Demo.ask "q20") Demo.three rs eq_refl eq_refl) as [Hbest Hlow].
    destruct (Hbest (hit 20 "q20" float_0_8)
                [hit 10 "q10" float_0_6; hit 30 "q30" float_0_6] eq_refl eq_refl)
      as (alts & Halts & Hin).
    exists alts. split_and!; [done..|].
    apply (Hlow (hit 10 "q10" float_0_6)); [right; left|done..].
  - pose (rs := [hit 30 "q30" float_0_8; hit 10 "q10" float_0_6;
                 hit 20 "q20" float_0_6]).
    destruct (proj1 (query_threshold_boundaries Demo.embed Demo.ip)
                float_0_6 (Demo.ask "q30") Demo.three rs eq_refl)
      as (_ & _ & _ & _ & _ & _ & Hsome).
    apply Hsome. exists (hit 30 "q30" float_0_8).
    split_and!; [left|done..].
Defined.

Lemma search_returns_only_real_matches_witness :
  query Demo.embed Demo.ip float_0_8 (Demo.ask "q20") new_model
    = Ok (Alternatives []) ∧
  ∃ rs, search Demo.embed Demo.ip "q20" 2 Demo.three = Ok rs ∧
        (length rs ≤ 2 `min` 3)%nat.
Proof.
  split.
  - apply (proj1 (search_returns_only_real_matches Demo.embed Demo.ip));
      [done | simpl; lia].
  - eexists. split; [reflexivity|].
    by apply (proj2 (search_returns_only_real_matches Demo.embed Demo.ip)
                "q20" 2%nat Demo.three _ eq_refl).
Defined.

Lemma search_needs_dense_metadata_witness :
  (∃ rs, search Demo.embed Demo.ip "q20" 2 Demo.three = Ok rs) ∧
  (∃ key, search Demo.embed Demo.ip "q20" 2 Demo.torn = Raise (KeyError key)).
Proof.
  split.
  - destruct (proj1 (search_needs_dense_metadata Demo.embed Demo.ip)
                "q20" 2%nat Demo.three) as (rs & Hrs & _).
    + lia.
    + intros p Hp. change (Faiss.ntotal (index Demo.three)) with 3 in Hp.
      assert (p = 0 ∨ p = 1 ∨ p = 2) as [-> | [-> | ->]] by lia; by eexists.
    + by exists rs.
  - destruct (proj2 (search_needs_dense_metadata Demo.embed Demo.ip)
                "q20" 2%nat Demo.torn (float_0_6, 0)) as (key & Hkey & _).
    + vm_compute. left.
    + done.
    + by exists key.
Defined.

Lemma perform_check_reconciles_witness :
  status (perform_check Demo.embed (λ _, "t4")
            (HttpResponse 200 (inr [Demo.faq 10 "q10"; Demo.faq 50 "q50"]))
            Demo.three).2 = "reindexed".
Proof.
  apply (proj1 (perform_check_reconciles Demo.embed) (λ _, "t4")
           [Demo.faq 10 "q10"; Demo.faq 50 "q50"] Demo.three).
  left. by vm_compute.
Defined.

(** * More properties of the service *)

#[local] Set Warnings "-clear-no-such-hyp".

Section MoreProperties.
Context {vec : Type}.
Variable generate_embedding : string → vec.
Variable inner_product : vec → vec → float.

Implicit Types (m : EmbeddingModel (vec := vec)) (d : list (Z * FAQItem)).

(** ** Ids and entries *)

Lemma elem_of_faiss_ids m i :
  i ∈ faiss_ids m ↔ ∃ k f, (k, f) ∈ faqs (metadata m) ∧ id f = i.
Proof.
  unfold faiss_ids. rewrite elem_of_list_to_set, list_elem_of_fmap. split.
  - intros ([k f] & -> & Hin). by exists k, f.
  - intros (k & f & Hin & <-). by exists (k, f).
Qed.

Lemma find_idx_None_faiss_ids m faq_id :
  find_idx faq_id (faqs (metadata m)) = None ↔ faq_id ∉ faiss_ids m.
Proof.
  rewrite find_idx_None, elem_of_faiss_ids. split.
  - intros H (k & f & Hin & Hid). by apply (H k f).
  - intros H k f Hin Hid. apply H. by exists k, f.
Qed.

Lemma elem_of_keys {V} (d : list (Z * V)) k v : (k, v) ∈ d → k ∈ PyDict.keys d.
Proof. intros Hin. apply list_elem_of_fmap. by exists (k, v). Qed.

Lemma elem_of_set {V} (k0 : Z) (v : V) (d : list (Z * V)) k h :
  PyDict.wf d →
  (k, h) ∈ PyDict.set k0 v d ↔ (k = k0 ∧ h = v) ∨ ((k, h) ∈ d ∧ k ≠ k0).
Proof.
  unfold PyDict.wf, PyDict.keys.
  induction d as [|[k1 v1] d IH]; simpl; intros Hwf.
  - rewrite list_elem_of_singleton. split.
    + intros [= -> ->]. by left.
    + intros [[-> ->]|[Hin _]]; [done | inversion Hin].
  - apply NoDup_cons in Hwf as [Hk1 Hwf].
    destruct (Z.eqb_spec k0 k1) as [->|Hne]; rewrite !elem_of_cons.
    + split.
      * intros [[= -> ->]|Hin]; [by left|]. right. split; [by right|].
        intros ->. by apply Hk1, (elem_of_keys d _ h).
      * intros [[-> ->]|[[[= -> ->]|Hin] Hk]]; [by left|done|by right].
    + rewrite (IH Hwf). split.
      * intros [[= -> ->]|[[-> ->]|[Hin Hk]]]; [|by left|].
        -- right. split; [by left | done].
        -- right. split; [by right | done].
      * intros [[-> ->]|[[[= -> ->]|Hin] Hk]]; [right; by left|by left|].
        right. right. done.
Qed.

(** Equal ids in a metadata without duplicate ids belong to one entry. *)
Lemma ids_unique_elem m k1 f1 k2 f2 :
  ids_unique m → (k1, f1) ∈ faqs (metadata m) → (k2, f2) ∈ faqs (metadata m) →
  id f1 = id f2 → (k1, f1) = (k2, f2).
Proof.
  unfold ids_unique. generalize (faqs (metadata m)). intros d.
  induction d as [|e d IH]; intros Hnd H1 H2 Hid; [inversion H1|].
  rewrite fmap_cons in Hnd. apply NoDup_cons in Hnd as [He Hnd].
  apply elem_of_cons in H1 as [H1|H1]; apply elem_of_cons in H2 as [H2|H2].
  - congruence.
  - subst e. destruct He. apply list_elem_of_fmap. by exists (k2, f2).
  - subst e. destruct He. apply list_elem_of_fmap. by exists (k1, f1).
  - by apply IH.
Qed.

(** ** [add_or_update_faq] on a new id *)

Lemma add_new_shape now faq_id q a m :
  dense m → find_idx faq_id (faqs (metadata m)) = None →
  let r := add_or_update_faq generate_embedding now faq_id q a m in
  r.1 = Faiss.ntotal (index m) ∧
  index r.2 = index m ++ [generate_embedding q] ∧
  faqs (metadata r.2) =
    faqs (metadata m) ++
      [(Faiss.ntotal (index m), {| id := faq_id; question := q; answer := a |})].
Proof.
  intros [Hwf Hk] Hfind. unfold add_or_update_faq. rewrite Hfind. simpl.
  split_and!; [done..|]. apply set_fresh. rewrite Hk. lia.
Qed.

Lemma dense_get_position m k f :
  dense m → PyDict.get k (faqs (metadata m)) = Some f →
  0 ≤ k < Faiss.ntotal (index m).
Proof.
  intros [_ Hk] Hget. apply Hk. by apply (elem_of_keys _ _ f), get_Some_elem.
Qed.

Lemma well_formed_add_new now faq_id q a m :
  well_formed generate_embedding m →
  find_idx faq_id (faqs (metadata m)) = None →
  well_formed generate_embedding
    (add_or_update_faq generate_embedding now faq_id q a m).2.
Proof.
  intros (Hd & Hu & Ha) Hfind.
  destruct (add_new_shape now faq_id q a m Hd Hfind) as (_ & Hix & Hfaqs).
  split_and!.
  - by apply dense_add_or_update_faq.
  - unfold ids_unique. rewrite Hfaqs, fmap_app. simpl.
    apply NoDup_app. split_and!; [done| |apply NoDup_singleton].
    intros i Hi ->%list_elem_of_singleton.
    apply list_elem_of_fmap in Hi as ([k f] & Hid & Hin). simpl in Hid.
    by apply (proj1 (find_idx_None _ _) Hfind k f).
  - intros k f Hget. rewrite Hix.
    unfold add_or_update_faq in Hget. rewrite Hfind in Hget. simpl in Hget.
    rewrite get_set in Hget. destruct (Z.eqb_spec k (Faiss.ntotal (index m))) as [->|Hne].
    + injection Hget as <-. simpl. unfold Faiss.ntotal. rewrite Nat2Z.id.
      by rewrite list_lookup_middle.
    + apply lookup_app_l_Some. by apply Ha.
Qed.

(** ** [add_or_update_faq] on the id of the last position *)

Lemma ids_set_same_id k (v v0 : FAQItem) d :
  PyDict.get k d = Some v0 → id v0 = id v →
  (id ∘ snd) <$> PyDict.set k v d = (id ∘ snd) <$> d.
Proof.
  induction d as [|[k1 v1] d IH]; simpl; [done|].
  destruct (Z.eqb_spec k k1) as [->|Hne].
  - intros [= ->] Hid. rewrite !fmap_cons. simpl. by rewrite Hid.
  - intros Hget Hid. rewrite !fmap_cons. f_equal. by apply IH.
Qed.

Lemma find_idx_get m faq_id p :
  dense m → find_idx faq_id (faqs (metadata m)) = Some p →
  ∃ f, PyDict.get p (faqs (metadata m)) = Some f ∧ id f = faq_id.
Proof.
  intros [Hwf _] (f & Hin & Hid)%find_idx_Some.
  exists f. split; [by apply elem_get | done].
Qed.

Lemma well_formed_update_last now faq_id q a m :
  well_formed generate_embedding m →
  find_idx faq_id (faqs (metadata m)) = Some (Faiss.ntotal (index m) - 1) →
  well_formed generate_embedding
    (add_or_update_faq generate_embedding now faq_id q a m).2.
Proof.
  intros (Hd & Hu & Ha) Hfind.
  destruct (add_or_update_faq_existing generate_embedding now faq_id q a m _ Hd Hfind)
    as (_ & Hix & Hfaqs & _).
  destruct (find_idx_get _ _ _ Hd Hfind) as (f0 & Hf0 & Hid0).
  pose proof (find_idx_position _ _ _ Hd Hfind) as Hp.
  split_and!.
  - by apply dense_add_or_update_faq.
  - unfold ids_unique. rewrite Hfaqs. by rewrite (ids_set_same_id _ _ f0).
  - intros k f Hget. rewrite Hfaqs, get_set in Hget. rewrite Hix.
    assert (Z.to_nat (Faiss.ntotal (index m) - 1) < length (index m))%nat as Hlt.
    { unfold Faiss.ntotal in *. lia. }
    destruct (Z.eqb_spec k (Faiss.ntotal (index m) - 1)) as [->|Hne].
    + injection Hget as <-. simpl.
      rewrite drop_ge by (unfold Faiss.ntotal; lia). simpl.
      rewrite lookup_app_r by (rewrite length_take; lia).
      rewrite length_take.
      by replace (_ - _)%nat with 0%nat by lia.
    + pose proof (dense_get_position _ _ _ Hd Hget) as Hk.
      apply lookup_app_l_Some. rewrite lookup_take_lt by lia. by apply Ha.
Qed.

(** ** [delete_faq] and the alignment of entries and vectors *)

Lemma ids_renumbered p d :
  (id ∘ snd) <$> renumbered p d = (id ∘ snd) <$> filter (λ e, e.1 ≠ p) d.
Proof. unfold renumbered. rewrite <- list_fmap_compose. done. Qed.

Lemma NoDup_fmap_filter {A B} (g : A → B) (P : A → Prop)
    `{∀ x, Decision (P x)} (l : list A) :
  NoDup (g <$> l) → NoDup (g <$> filter P l).
Proof.
  induction l as [|x l IH]; [done|].
  rewrite fmap_cons. intros [Hx Hl]%NoDup_cons.
  destruct (decide (P x)).
  - rewrite filter_cons_True, fmap_cons by done. apply NoDup_cons.
    split; [|by apply IH]. intros (y & Hy & Hin%list_elem_of_filter)%list_elem_of_fmap.
    apply Hx, list_elem_of_fmap. exists y. by destruct Hin.
  - rewrite filter_cons_False by done. by apply IH.
Qed.

Lemma get_renumbered p d k' f :
  PyDict.wf d → PyDict.get k' (renumbered p d) = Some f →
  ∃ k, PyDict.get k d = Some f ∧ k ≠ p ∧ k' = shift_down p k.
Proof.
  intros Hwf Hget%get_Some_elem. unfold renumbered in Hget.
  apply list_elem_of_fmap in Hget as ([k f0] & [= -> ->] & [Hne Hin]%list_elem_of_filter).
  exists k. split_and!; [by apply elem_get | done..].
Qed.

Lemma well_formed_delete_faq now faq_id m :
  well_formed generate_embedding m →
  well_formed generate_embedding (delete_faq now faq_id m).2.
Proof.
  intros (Hd & Hu & Ha).
  destruct (find_idx faq_id (faqs (metadata m))) as [p|] eqn:Hfind.
  - destruct (delete_faq_known now faq_id m p Hd Hfind) as (_ & Hix & _ & Hfaqs & _).
    pose proof (find_idx_position _ _ _ Hd Hfind) as Hp.
    split_and!.
    + by apply dense_delete_faq.
    + unfold ids_unique. rewrite Hfaqs, ids_renumbered. by apply NoDup_fmap_filter.
    + intros k' f Hget. rewrite Hfaqs in Hget. rewrite Hix.
      destruct Hd as [Hwf Hkeys].
      destruct (get_renumbered _ _ _ _ Hwf Hget) as (k & Hk & Hne & ->).
      assert (0 ≤ k < Faiss.ntotal (index m)) as Hrange.
      { apply Hkeys. by apply (elem_of_keys _ _ f), get_Some_elem. }
      specialize (Ha k f Hk). unfold Faiss.ntotal in *. unfold shift_down.
      destruct (Z.ltb_spec p k).
      * rewrite lookup_app_r by (rewrite length_take; lia).
        rewrite length_take, lookup_drop. rewrite <- Ha. f_equal. lia.
      * apply lookup_app_l_Some. rewrite lookup_take_lt by lia. done.
  - unfold delete_faq. by rewrite Hfind.
Qed.

(** X1. Creating a FAQ whose id no entry carries, in a model whose keys are
    the positions of the index: the returned position is the old [ntotal],
    the new vector is appended to the index, the new entry is appended to
    the metadata under that position, and every old entry is still found
    under its old key. *)
Theorem add_or_update_faq_new_id_appends now faq_id q a m :
  dense m →
  (∀ idx f, (idx, f) ∈ faqs (metadata m) → id f ≠ faq_id) →
  let r := add_or_update_faq generate_embedding now faq_id q a m in
  let entry := {| id := faq_id; question := q; answer := a |} in
  r.1 = Faiss.ntotal (index m) ∧
  index r.2 = index m ++ [generate_embedding q] ∧
  faqs (metadata r.2) = faqs (metadata m) ++ [(Faiss.ntotal (index m), entry)] ∧
  PyDict.get r.1 (faqs (metadata r.2)) = Some entry ∧
  (∀ k f, PyDict.get k (faqs (metadata m)) = Some f →
          PyDict.get k (faqs (metadata r.2)) = Some f) ∧
  dense r.2.
Proof.
  intros Hd Hnew r entry.
  apply find_idx_None in Hnew.
  destruct (add_new_shape now faq_id q a m Hd Hnew) as (Hidx & Hix & Hfaqs).
  assert (faqs (metadata r.2) =
          PyDict.set (Faiss.ntotal (index m)) entry (faqs (metadata m))) as Hset.
  { unfold r, add_or_update_faq. by rewrite Hnew. }
  split_and!; [done..| | |by apply dense_add_or_update_faq].
  - fold r in Hidx. by rewrite Hidx, Hset, get_set, Z.eqb_refl.
  - intros k f Hget. rewrite Hset, get_set.
    pose proof (dense_get_position _ _ _ Hd Hget).
    destruct (Z.eqb_spec k (Faiss.ntotal (index m))); [lia | done].
Qed.

Lemma well_formed_new_model : well_formed generate_embedding new_model.
Proof.
  split_and!; [apply dense_new_model|apply NoDup_nil_2|].
  intros k f Hget. done.
Qed.

Lemma well_formed_apply_op o m :
  well_formed generate_embedding m →
  match o with
  | CreateOrUpdate _ faq_id _ _ => new_or_last faq_id m
  | Delete _ _ => True
  end →
  well_formed generate_embedding (apply_op generate_embedding m o).
Proof.
  intros Hwf Hsafe. destruct o as [now faq_id q a|now faq_id]; cbn [apply_op].
  - unfold new_or_last in Hsafe.
    destruct (find_idx faq_id (faqs (metadata m))) as [p|] eqn:Hfind.
    + subst p. by apply well_formed_update_last.
    + by apply well_formed_add_new.
  - by apply well_formed_delete_faq.
Qed.

(** X2. Start from a model in which the keys are the positions of the
    index, no id sits at two positions and every entry sits at the position
    of the embedding of its own question.  Any sequence of deletions and of
    creations or updates, each creation or update meeting an id that is new
    or that sits at the last position, ends in such a model again. *)
Theorem appending_run_well_formed ops m :
  well_formed generate_embedding m →
  appending generate_embedding ops m →
  well_formed generate_embedding (run generate_embedding ops m).
Proof.
  revert m. induction ops as [|o ops IH]; intros m Hwf Happ; [done|].
  destruct Happ as [Hsafe Happ]. simpl. apply IH; [|done].
  by apply well_formed_apply_op.
Qed.

Lemma elem_find_idx m faq_id p f :
  ids_unique m → (p, f) ∈ faqs (metadata m) → id f = faq_id →
  find_idx faq_id (faqs (metadata m)) = Some p.
Proof.
  intros Hu Hin Hid.
  destruct (find_idx faq_id (faqs (metadata m))) as [p'|] eqn:Hfind.
  - destruct (find_idx_Some _ _ _ Hfind) as (f' & Hin' & Hid').
    assert ((p', f') = (p, f)) as [= -> ->]; [|done].
    apply (ids_unique_elem m); [done..|congruence].
  - by destruct (proj1 (find_idx_None _ _) Hfind p f).
Qed.

(** X3. In a model with dense keys and no duplicate id, writing again the
    id that sits at position [p] keeps the ids free of duplicates exactly
    when [p] is the last position.  When it is not, the entry that sat at
    the last position is overwritten: its id is carried by no entry
    afterwards, while the old entry of the written id stays under key [p]. *)
Theorem add_or_update_faq_existing_id_unique_iff_last now faq_id q a m p f :
  dense m → ids_unique m →
  (p, f) ∈ faqs (metadata m) → id f = faq_id →
  let r := add_or_update_faq generate_embedding now faq_id q a m in
  let last := Faiss.ntotal (index m) - 1 in
  (ids_unique r.2 ↔ p = last) ∧
  (p ≠ last →
     PyDict.get p (faqs (metadata r.2)) = Some f ∧
     ∀ g, PyDict.get last (faqs (metadata m)) = Some g → id g ∉ faiss_ids r.2).
Proof.
  intros Hd Hu Hin Hid r last.
  pose proof (elem_find_idx m faq_id p f Hu Hin Hid) as Hfind.
  pose proof Hd as [Hwf Hkeys].
  destruct (add_or_update_faq_existing generate_embedding now faq_id q a m p Hd Hfind)
    as (_ & _ & Hfaqs & _).
  fold r in Hfaqs. fold last in Hfaqs.
  assert (p ≠ last → (p, f) ∈ faqs (metadata r.2)) as Hold.
  { intros Hne. rewrite Hfaqs. apply elem_of_set; [done|]. by right. }
  assert ((last, {| id := faq_id; question := q; answer := a |})
            ∈ faqs (metadata r.2)) as Hnew.
  { rewrite Hfaqs. apply elem_of_set; [done|]. by left. }
  split.
  - split.
    + intros Hu'. destruct (decide (p = last)) as [|Hne]; [done|].
      assert ((p, f) = (last, {| id := faq_id; question := q; answer := a |}))
        as [= ? ?]; [|done].
      by apply (ids_unique_elem r.2); [|apply Hold| |].
    + intros ->. fold last in Hfind.
      unfold ids_unique. rewrite Hfaqs.
      destruct (find_idx_get _ _ _ Hd Hfind) as (f0 & Hf0 & Hid0).
      by rewrite (ids_set_same_id _ _ f0).
  - intros Hne. split.
    + rewrite Hfaqs, get_set. destruct (Z.eqb_spec p last); [done|].
      by apply elem_get.
    + intros g Hg (k & h & Hkh & Hidh)%elem_of_faiss_ids.
      apply get_Some_elem in Hg.
      rewrite Hfaqs in Hkh. apply elem_of_set in Hkh as [[-> ->]|[Hkh Hk]]; [| |done].
      * simpl in Hidh.
        assert ((last, g) = (p, f)) as [= ? ?]; [|done].
        apply (ids_unique_elem m); [done..|congruence].
      * assert ((k, h) = (last, g)) as [= ? ?]; [|done].
        by apply (ids_unique_elem m).
Qed.

(** ** Counting the entries of an id *)

Lemma occurrences_cons i k (f : FAQItem) d :
  occurrences i ((k, f) :: d) =
    ((if decide (id f = i) then 1 else 0) + occurrences i d)%nat.
Proof.
  unfold occurrences. destruct (decide (id f = i)).
  - by rewrite filter_cons_True.
  - by rewrite filter_cons_False.
Qed.

Lemma occurrences_zero i d :
  occurrences i d = 0%nat ↔ ∀ k f, (k, f) ∈ d → id f ≠ i.
Proof.
  induction d as [|[k f] d IH]; [split; [intros _ ? ? H; inversion H|done]|].
  rewrite occurrences_cons. destruct (decide (id f = i)) as [Heq|Hne].
  - split; [lia|]. intros H. by destruct (H k f); [left|].
  - simpl. rewrite IH. split.
    + intros H k' f' [[= -> ->]|Hin]%elem_of_cons; eauto.
    + intros H k' f' Hin. apply (H k' f'). by right.
Qed.

Lemma occurrences_pos i d :
  (0 < occurrences i d)%nat ↔ ∃ k f, (k, f) ∈ d ∧ id f = i.
Proof.
  induction d as [|[k f] d IH].
  - split; [unfold occurrences; simpl; lia|]. intros (k & f & Hin & _). inversion Hin.
  - rewrite occurrences_cons. destruct (decide (id f = i)) as [Heq|Hne].
    + split; [|lia]. intros _. exists k, f. split; [left | done].
    + simpl. rewrite IH. split.
      * intros (k' & f' & Hin & Hid). exists k', f'. split; [by right | done].
      * intros (k' & f' & [[= -> ->]|Hin]%elem_of_cons & Hid); [done|].
        by exists k', f'.
Qed.

Lemma occurrences_pos_faiss_ids m i :
  (0 < occurrences i (faqs (metadata m)))%nat ↔ i ∈ faiss_ids m.
Proof. by rewrite elem_of_faiss_ids, occurrences_pos. Qed.

Lemma dense_length m :
  dense m → length (faqs (metadata m)) = length (index m).
Proof.
  intros [Hwf Hkeys].
  assert (PyDict.keys (faqs (metadata m)) ≡ₚ seqZ 0 (Faiss.ntotal (index m)))
    as Hperm.
  { apply NoDup_Permutation; [done|apply NoDup_seqZ|].
    intros k. rewrite Hkeys, elem_of_seqZ. lia. }
  apply Permutation_length in Hperm. unfold PyDict.keys in Hperm.
  rewrite length_fmap, length_seqZ in Hperm. unfold Faiss.ntotal in Hperm. lia.
Qed.

Lemma NoDup_ids_occurrences d :
  NoDup ((id ∘ snd) <$> d) ↔ ∀ i, (occurrences i d ≤ 1)%nat.
Proof.
  induction d as [|[k f] d IH].
  { split; [intros _ i; unfold occurrences; simpl; lia|intros; apply NoDup_nil_2]. }
  rewrite fmap_cons, NoDup_cons, IH. simpl. split.
  - intros [Hout Hle] i. rewrite occurrences_cons.
    destruct (decide (id f = i)) as [<-|]; [|apply Hle].
    assert (occurrences (id f) d = 0%nat) as ->; [|lia].
    apply occurrences_zero. intros k' f' Hin Hid. apply Hout.
    apply list_elem_of_fmap. by exists (k', f').
  - intros Hle. split.
    + intros ([k' f'] & Hid & Hin)%list_elem_of_fmap. simpl in Hid.
      specialize (Hle (id f)). rewrite occurrences_cons in Hle.
      rewrite decide_True in Hle by done.
      assert (occurrences (id f) d = 0%nat) as Hz by lia.
      by apply (proj1 (occurrences_zero _ _) Hz k' f').
    + intros i. specialize (Hle i). rewrite occurrences_cons in Hle. lia.
Qed.

Lemma occurrences_renumbered i p d :
  occurrences i (renumbered p d) = occurrences i (filter (λ e, e.1 ≠ p) d).
Proof.
  unfold renumbered.
  induction (filter (λ e, e.1 ≠ p) d) as [|[k f] l IH]; [done|].
  rewrite fmap_cons. simpl. by rewrite !occurrences_cons, IH.
Qed.

Lemma filter_key_absent p d :
  p ∉ PyDict.keys d → filter (λ e, e.1 ≠ p) d = d.
Proof.
  intros Hout. apply filter_all, Forall_forall. intros [k f] Hin Heq.
  simpl in Heq. subst k. by apply Hout, (elem_of_keys _ _ f).
Qed.

Lemma occurrences_without_key i p f d :
  PyDict.wf d → (p, f) ∈ d →
  occurrences i d =
    ((if decide (id f = i) then 1 else 0)
     + occurrences i (filter (λ e, e.1 ≠ p) d))%nat.
Proof.
  unfold PyDict.wf, PyDict.keys.
  induction d as [|[k g] d IH]; intros Hwf Hin; [inversion Hin|].
  rewrite fmap_cons in Hwf. apply NoDup_cons in Hwf as [Hk Hwf].
  apply elem_of_cons in Hin as [[= <- <-]|Hin].
  - rewrite filter_cons_False by (simpl; auto).
    rewrite filter_key_absent by done. apply occurrences_cons.
  - assert (k ≠ p) as Hne.
    { intros ->. by apply Hk, (elem_of_keys _ _ f). }
    rewrite filter_cons_True by done. rewrite !occurrences_cons, (IH Hwf Hin). lia.
Qed.

Lemma occurrences_delete_faq now faq_id m p :
  dense m → find_idx faq_id (faqs (metadata m)) = Some p →
  ∀ i, occurrences i (faqs (metadata m)) =
    ((if decide (faq_id = i) then 1 else 0)
     + occurrences i (faqs (metadata (delete_faq now faq_id m).2)))%nat.
Proof.
  intros Hd Hfind i. pose proof Hd as [Hwf _].
  destruct (delete_faq_known now faq_id m p Hd Hfind) as (_ & _ & _ & Hfaqs & _).
  destruct (find_idx_Some _ _ _ Hfind) as (g & Hg & <-).
  rewrite Hfaqs, occurrences_renumbered. by apply occurrences_without_key.
Qed.

(** X4. In a model with dense keys, a successful [delete_faq] removes
    exactly one entry carrying the id (the first one the loop meets) and no
    entry of any other id; the index and the metadata both shrink by one. *)
Theorem delete_faq_removes_one_entry now faq_id m idx f :
  dense m → (idx, f) ∈ faqs (metadata m) → id f = faq_id →
  let m' := (delete_faq now faq_id m).2 in
  occurrences faq_id (faqs (metadata m')) =
    (occurrences faq_id (faqs (metadata m)) - 1)%nat ∧
  (∀ i, i ≠ faq_id →
        occurrences i (faqs (metadata m')) = occurrences i (faqs (metadata m))) ∧
  length (faqs (metadata m')) = (length (faqs (metadata m)) - 1)%nat ∧
  length (index m') = (length (index m) - 1)%nat.
Proof.
  intros Hd Hin Hid m'.
  destruct (find_idx faq_id (faqs (metadata m))) as [p|] eqn:Hfind;
    [|by destruct (proj1 (find_idx_None _ _) Hfind idx f)].
  destruct (delete_faq_known now faq_id m p Hd Hfind) as (_ & _ & Hn & _).
  fold m' in Hn.
  pose proof (occurrences_delete_faq now faq_id m p Hd Hfind) as Hocc.
  fold m' in Hocc.
  pose proof (find_idx_position _ _ _ Hd Hfind) as Hp.
  split_and!.
  - rewrite (Hocc faq_id), decide_True by done. lia.
  - intros i Hi. rewrite (Hocc i), decide_False by congruence. done.
  - rewrite (dense_length m Hd).
    rewrite (dense_length m' (dense_delete_faq now faq_id m Hd)).
    unfold Faiss.ntotal in Hn. lia.
  - unfold Faiss.ntotal in Hn. lia.
Qed.

(** ** The set of indexed ids under creation and deletion *)

Lemma faiss_ids_delete_faq now faq_id m :
  dense m → ids_unique m →
  faiss_ids (delete_faq now faq_id m).2 = faiss_ids m ∖ {[faq_id]}.
Proof.
  clear generate_embedding inner_product.
  intros Hd Hu. apply set_eq. intros i.
  rewrite elem_of_difference, not_elem_of_singleton.
  destruct (find_idx faq_id (faqs (metadata m))) as [p|] eqn:Hfind.
  - pose proof (occurrences_delete_faq now faq_id m p Hd Hfind i) as Hocc.
    rewrite <- !occurrences_pos_faiss_ids.
    pose proof (proj1 (NoDup_ids_occurrences _) Hu faq_id) as Hle.
    destruct (decide (faq_id = i)) as [<-|Hne]; [lia|].
    split; [|lia]. intros Hpos. split; [lia | congruence].
  - unfold delete_faq. rewrite Hfind. simpl.
    apply find_idx_None_faiss_ids in Hfind. split; [|tauto].
    intros Hi. split; [done|]. by intros ->.
Qed.

Lemma faiss_ids_add_new now faq_id q a m :
  dense m → find_idx faq_id (faqs (metadata m)) = None →
  faiss_ids (add_or_update_faq generate_embedding now faq_id q a m).2
    = {[faq_id]} ∪ faiss_ids m.
Proof.
  clear inner_product.
  intros Hd Hfind.
  destruct (add_new_shape now faq_id q a m Hd Hfind) as (_ & _ & Hfaqs).
  unfold faiss_ids at 1. rewrite Hfaqs, fmap_app, list_to_set_app_L. simpl.
  fold (faiss_ids m). set_solver.
Qed.

Lemma delete_faq_unknown_gone now faq_id m :
  (∀ idx f, (idx, f) ∈ faqs (metadata m) → id f ≠ faq_id) →
  delete_faq now faq_id m = (false, m).
Proof.
  intros H. unfold delete_faq.
  by rewrite (proj2 (find_idx_None faq_id _) H).
Qed.

(** X5. In a model with dense keys and no duplicate id, [DELETE
    /faqs/{faq_id}] for an id that an entry carries answers with the id and
    leaves exactly the other ids indexed; asked again for the same id it
    answers 404 and changes nothing. *)
Theorem delete_faq_endpoint_twice now now' faq_id m idx f :
  dense m → ids_unique m →
  (idx, f) ∈ faqs (metadata m) → id f = faq_id →
  let first := delete_faq_endpoint now faq_id m in
  let second := delete_faq_endpoint now' faq_id first.2 in
  first.1 = Respond faq_id ∧
  faiss_ids first.2 = faiss_ids m ∖ {[faq_id]} ∧
  second = (HTTPException 404
              ("FAQ with ID " ++ pretty.pretty faq_id ++ " not found")%string,
            first.2).
Proof.
  clear generate_embedding inner_product.
  intros Hd Hu Hin Hid first second.
  assert (first = (Respond faq_id, (delete_faq now faq_id m).2)) as Hfirst.
  { unfold first, delete_faq_endpoint, delete_faq.
    destruct (find_idx faq_id (faqs (metadata m))) as [p|] eqn:Hfind; [done|].
    by destruct (proj1 (find_idx_None _ _) Hfind idx f). }
  pose proof (faiss_ids_delete_faq now faq_id m Hd Hu) as Hids.
  rewrite Hfirst. simpl. split_and!; [done..|].
  unfold second. rewrite Hfirst. simpl.
  unfold delete_faq_endpoint.
  rewrite delete_faq_unknown_gone; [done|].
  apply find_idx_None, find_idx_None_faiss_ids. rewrite Hids. set_solver.
Qed.

(** ** What the files hold *)

Lemma persisted_save_index now m : persisted (save_index now m).
Proof. done. Qed.

Lemma persisted_apply_op o m :
  persisted m → persisted (apply_op generate_embedding m o).
Proof.
  intros Hm. destruct o as [now faq_id q a|now faq_id]; [done|].
  simpl. unfold delete_faq.
  by destruct (find_idx faq_id (faqs (metadata m))).
Qed.

Lemma persisted_run ops m :
  persisted m → persisted (run generate_embedding ops m).
Proof.
  revert m. induction ops as [|o ops IH]; intros m Hm; [done|].
  simpl. by apply IH, persisted_apply_op.
Qed.

Lemma persisted_load_index now disk : persisted (load_index (vec := vec) now disk).
Proof. by destruct disk as [[ix md]|]. Qed.

Lemma load_index_saved now m : persisted m → load_index now (saved m) = m.
Proof.
  destruct m as [ix md sv]. unfold persisted. simpl. by intros ->.
Qed.

Lemma process_bulk_indexing_run clock items n m :
  ∃ ts, length ts = length items ∧
    process_bulk_indexing generate_embedding clock items n m
      = run generate_embedding (creations ts items) m.
Proof.
  revert n m. induction items as [|f items IH]; intros n m; simpl.
  - by exists [].
  - destruct (IH (S n)
      (add_or_update_faq generate_embedding (clock n) (id f) (question f)
         (answer f) m).2) as (ts & Hlen & Hrun).
    exists (clock n :: ts). simpl. split; [by rewrite Hlen | done].
Qed.

Lemma perform_check_run clock resp m :
  ∃ ops, (perform_check generate_embedding clock resp m).1
           = run generate_embedding ops m.
Proof.
  destruct resp as [msg|code [msg|fs]]; simpl; [by exists []| |].
  - exists []. by destruct (negb (Z.eqb code 200)).
  - destruct (negb (Z.eqb code 200)); [by exists []|].
    set (missing := list_to_set (id <$> fs) ∖ faiss_ids m).
    set (orphaned := faiss_ids m ∖ list_to_set (id <$> fs)).
    destruct (add_missing_run generate_embedding clock missing fs 0%nat m)
      as (ts1 & _ & Hr1).
    destruct (add_missing generate_embedding clock missing fs 0 m) as [n m1].
    simpl in Hr1.
    destruct (remove_orphaned_run generate_embedding clock (elements orphaned) n m1)
      as (ts2 & _ & Hr2).
    destruct (remove_orphaned clock (elements orphaned) n m1) as [n' m2].
    simpl in Hr2. simpl. eexists. by rewrite Hr2, Hr1, <- run_app.
Qed.

(** X6. Start the service on any files, apply any sequence of creations,
    updates and deletions, then possibly a consistency check, a bulk import
    or a reset: at each of these points the files hold exactly the index
    and the metadata in memory, so that a restart ([load_index] on the
    files) gives the same model back. *)
Theorem restart_gives_the_model_back now disk ops now' clock resp items t1 t2 :
  let m := run generate_embedding ops (load_index now disk) in
  let checked := (perform_check generate_embedding clock resp m).1 in
  let imported := (bulk_index generate_embedding clock items m).2 in
  let cleared := reset_faiss_index t1 t2 m in
  load_index now' (saved m) = m ∧
  load_index now' (saved checked) = checked ∧
  load_index now' (saved imported) = imported ∧
  load_index now' (saved cleared) = cleared.
Proof.
  intros m checked imported cleared.
  assert (persisted m) as Hm by apply persisted_run, persisted_load_index.
  split_and!; apply load_index_saved; [done| | |done].
  - unfold checked.
    destruct (perform_check_run clock resp m) as [ops' ->].
    by apply persisted_run.
  - unfold imported, bulk_index. simpl.
    destruct (process_bulk_indexing_run clock items 0%nat m) as (ts & _ & ->).
    by apply persisted_run.
Qed.

(** ** [get_faiss_stats] *)

Lemma get_count_ids d (acc : list (Z * Z)) i :
  PyDict.get i (count_ids d acc) =
    match PyDict.get i acc with
    | Some c => Some (c + Z.of_nat (occurrences i d))
    | None => if decide (occurrences i d = 0%nat) then None
              else Some (Z.of_nat (occurrences i d))
    end.
Proof.
  revert acc. induction d as [|[k f] d IH]; intros acc; simpl.
  - unfold occurrences. simpl. destruct (PyDict.get i acc); [f_equal; lia | done].
  - rewrite IH, occurrences_cons.
    destruct (decide (id f = i)) as [<-|Hne].
    + destruct (PyDict.get (id f) acc) as [c0|] eqn:Hacc;
        rewrite get_set, Z.eqb_refl; [f_equal; lia|].
      rewrite decide_False by lia. f_equal. lia.
    + assert (Z.eqb i (id f) = false) as Hneq by (apply Z.eqb_neq; congruence).
      destruct (PyDict.get (id f) acc) as [c0|]; by rewrite get_set, Hneq.
Qed.

Lemma wf_count_ids d (acc : list (Z * Z)) :
  PyDict.wf acc → PyDict.wf (count_ids d acc).
Proof.
  revert acc. induction d as [|[k f] d IH]; intros acc Hwf; [done|].
  simpl. apply IH. destruct (PyDict.get (id f) acc); by apply wf_set.
Qed.

Lemma elem_of_count_ids d i c :
  (i, c) ∈ count_ids d [] ↔
  c = Z.of_nat (occurrences i d) ∧ (0 < occurrences i d)%nat.
Proof.
  assert (PyDict.wf (count_ids d [])) as Hwf by apply wf_count_ids, NoDup_nil_2.
  split.
  - intros Hin%(elem_get _ _ _ Hwf). rewrite get_count_ids in Hin. simpl in Hin.
    destruct (decide (occurrences i d = 0%nat)); [done|].
    injection Hin as <-. split; [done | lia].
  - intros [-> Hpos]. apply get_Some_elem. rewrite get_count_ids. simpl.
    by rewrite decide_False by lia.
Qed.

Lemma elem_of_stats_duplicates m i c :
  (i, c) ∈ duplicates (get_faiss_stats m) ↔
  c = Z.of_nat (occurrences i (faqs (metadata m))) ∧ 1 < c.
Proof.
  unfold get_faiss_stats. simpl.
  rewrite list_elem_of_In, filter_In, <- list_elem_of_In, elem_of_count_ids.
  simpl. rewrite Z.ltb_lt. split; [tauto|]. intros [-> Hc]. split_and!; [done|lia|done].
Qed.

Lemma keys_count_ids m :
  PyDict.keys (count_ids (faqs (metadata m)) []) ≡ₚ elements (faiss_ids m).
Proof.
  apply NoDup_Permutation.
  - apply wf_count_ids, NoDup_nil_2.
  - apply NoDup_elements.
  - intros i. rewrite elem_of_elements, <- occurrences_pos_faiss_ids.
    unfold PyDict.keys. rewrite list_elem_of_fmap. split.
    + intros ([i' c] & -> & Hin). by apply elem_of_count_ids in Hin as [_ ?].
    + intros Hpos. exists (i, Z.of_nat (occurrences i (faqs (metadata m)))).
      split; [done|]. by apply elem_of_count_ids.
Qed.

Lemma stats_unique_faq_ids m :
  unique_faq_ids (get_faiss_stats m) = Z.of_nat (size (faiss_ids m)).
Proof.
  unfold get_faiss_stats. simpl. f_equal.
  change (size (faiss_ids m)) with (length (elements (faiss_ids m))).
  rewrite <- (Permutation_length (keys_count_ids m)).
  unfold PyDict.keys. by rewrite length_fmap.
Qed.

Lemma stats_no_duplicates m :
  has_duplicates (get_faiss_stats m) = false → ids_unique m.
Proof.
  intros Hfalse. apply NoDup_ids_occurrences. intros i.
  destruct (decide (occurrences i (faqs (metadata m)) ≤ 1)%nat) as [|Hgt]; [done|].
  assert ((i, Z.of_nat (occurrences i (faqs (metadata m))))
            ∈ duplicates (get_faiss_stats m)) as Hin.
  { apply elem_of_stats_duplicates. split; [done | lia]. }
  unfold get_faiss_stats in Hfalse, Hin. simpl in Hfalse, Hin.
  destruct (List.filter _ _); [inversion Hin | done].
Qed.

Lemma stats_some_duplicates m :
  has_duplicates (get_faiss_stats m) = true → ¬ ids_unique m.
Proof.
  intros Htrue Hu.
  assert (∃ e, e ∈ duplicates (get_faiss_stats m)) as [[i c] Hin].
  { unfold get_faiss_stats in Htrue |- *. simpl in Htrue |- *.
    destruct (List.filter _ _) as [|e l]; [done|]. exists e. left. }
  apply elem_of_stats_duplicates in Hin as [-> Hc].
  pose proof (proj1 (NoDup_ids_occurrences _) Hu i). lia.
Qed.

Lemma stats_counts_agree m :
  dense m → ids_unique m →
  unique_faq_ids (get_faiss_stats m) = total_vectors (get_faiss_stats m).
Proof.
  intros Hd Hu. rewrite stats_unique_faq_ids.
  unfold get_faiss_stats, Faiss.ntotal. simpl. f_equal.
  rewrite <- (dense_length m Hd). unfold ids_unique in Hu.
  unfold faiss_ids. rewrite size_list_to_set by done. by rewrite length_fmap.
Qed.

(** X7. [GET /faiss/stats] reports duplicates exactly when some id sits at
    two positions or more; the duplicates it lists are exactly those ids,
    each with the number of entries that carry it; [unique_faq_ids] is the
    number of different ids in the metadata.  When the keys are the
    positions of the index and nothing is reported, [unique_faq_ids] and
    [total_vectors] agree. *)
Theorem get_faiss_stats_reports_duplicates m :
  let s := get_faiss_stats m in
  (has_duplicates s = true ↔ ¬ ids_unique m) ∧
  (∀ i c, (i, c) ∈ duplicates s ↔
          c = Z.of_nat (occurrences i (faqs (metadata m))) ∧ 1 < c) ∧
  unique_faq_ids s = Z.of_nat (size (faiss_ids m)) ∧
  (dense m → has_duplicates s = false → unique_faq_ids s = total_vectors s).
Proof.
  intros s. split_and!.
  - split; [apply stats_some_duplicates|].
    intros Hu. destruct (has_duplicates s) eqn:Hs; [done|].
    destruct Hu. by apply stats_no_duplicates.
  - apply elem_of_stats_duplicates.
  - apply stats_unique_faq_ids.
  - intros Hd Hfalse. apply stats_counts_agree; [done|].
    by apply stats_no_duplicates.
Qed.

(** ** [list_faiss_items] *)

Lemma dense_get_is_Some m p :
  dense m → 0 ≤ p < Faiss.ntotal (index m) →
  is_Some (PyDict.get p (faqs (metadata m))).
Proof.
  intros [_ Hkeys] Hp.
  destruct (PyDict.get p (faqs (metadata m))) eqn:Hget; [by eexists|].
  apply get_None in Hget. destruct Hget. by apply Hkeys.
Qed.

Lemma Sorted_le_seqZ (z n : Z) : Sorted Z.le (seqZ z n).
Proof.
  remember (Z.to_nat n) as k eqn:Hk. revert z n Hk.
  induction k as [|k IH]; intros z n Hk.
  - rewrite seqZ_nil by lia. constructor.
  - rewrite seqZ_cons by lia. constructor; [apply IH; lia|].
    destruct (decide (0 < Z.pred n)) as [Hpos|Hneg].
    + rewrite seqZ_cons by done. constructor. lia.
    + rewrite seqZ_nil by lia. constructor.
Qed.

Lemma sorted_keys_dense m :
  dense m →
  merge_sort Z.le (PyDict.keys (faqs (metadata m))) = seqZ 0 (Faiss.ntotal (index m)).
Proof.
  intros [Hwf Hkeys].
  apply (Sorted_unique Z.le); [apply Sorted_merge_sort, _|apply Sorted_le_seqZ|].
  rewrite merge_sort_Permutation.
  apply NoDup_Permutation; [done|apply NoDup_seqZ|].
  intros k. rewrite Hkeys, elem_of_seqZ. lia.
Qed.

Lemma take_drop_seqZ (j k : nat) n :
  take k (drop j (seqZ 0 n)) =
    seqZ (Z.of_nat j) (Z.min (Z.of_nat k) (n - Z.of_nat j)).
Proof.
  apply list_eq. intros i.
  destruct (decide (i < k)%nat) as [Hik|Hik].
  - rewrite lookup_take_lt, lookup_drop by done.
    destruct (decide (Z.of_nat (j + i) < n)) as [Hin|Hin].
    + rewrite !lookup_seqZ_lt by lia. f_equal. lia.
    + by rewrite !lookup_seqZ_ge by lia.
  - rewrite lookup_take_ge by lia. by rewrite lookup_seqZ_ge by lia.
Qed.

Lemma seqZ_eq (z1 z2 n1 n2 : Z) :
  (0 < n1 ∨ 0 < n2 → z1 = z2 ∧ n1 = n2) → seqZ z1 n1 = seqZ z2 n2.
Proof.
  intros H. destruct (decide (0 < n1 ∨ 0 < n2)) as [Hpos|Hneg].
  - by destruct (H Hpos) as [-> ->].
  - by rewrite !seqZ_nil by lia.
Qed.

Lemma py_slice_seqZ a b n :
  0 ≤ n →
  let clamp := λ x : Z, if Z.ltb x 0 then Z.max (x + n) 0 else Z.min x n in
  py_slice a b (seqZ 0 n) = seqZ (clamp a) (clamp b - clamp a).
Proof.
  intros Hn clamp. unfold py_slice. rewrite length_seqZ, Z2Nat.id by done.
  rewrite take_drop_seqZ. subst clamp. cbv beta.
  apply seqZ_eq. destruct (Z.ltb_spec a 0), (Z.ltb_spec b 0); lia.
Qed.

Lemma collect_items_stored d ks it :
  it ∈ collect_items d ks →
  fi_index it ∈ ks ∧
  PyDict.get (fi_index it) d =
    Some {| id := fi_id it; question := fi_question it; answer := fi_answer it |}.
Proof.
  induction ks as [|k ks IH]; simpl; [intros H; inversion H|].
  destruct (PyDict.get k d) as [f|] eqn:Hget.
  - intros [->|Hin]%elem_of_cons.
    + simpl. split; [left|]. rewrite Hget. by destruct f.
    + destruct (IH Hin). split; [by right | done].
  - intros Hin. destruct (IH Hin). split; [by right | done].
Qed.

Lemma collect_items_present d ks :
  (∀ k, k ∈ ks → is_Some (PyDict.get k d)) →
  fi_index <$> collect_items d ks = ks.
Proof.
  induction ks as [|k ks IH]; simpl; intros Hall; [done|].
  destruct (Hall k) as [f Hf]; [left|]. rewrite Hf, fmap_cons. simpl.
  f_equal. apply IH. intros k' Hk'. apply Hall. by right.
Qed.

Lemma list_faiss_items_indexes skip limit m :
  dense m →
  let n := Faiss.ntotal (index m) in
  let clamp := λ x : Z, if Z.ltb x 0 then Z.max (x + n) 0 else Z.min x n in
  fi_index <$> list_faiss_items skip limit m
    = seqZ (clamp skip) (clamp (skip + limit) - clamp skip).
Proof.
  intros Hd n clamp.
  assert (0 ≤ n) as Hn by (unfold n, Faiss.ntotal; lia).
  unfold list_faiss_items. rewrite sorted_keys_dense by done.
  fold n. rewrite py_slice_seqZ by done. fold clamp.
  apply collect_items_present. intros k Hk%elem_of_seqZ.
  assert (0 ≤ clamp skip ∧ clamp (skip + limit) ≤ n) as [Hlo Hhi].
  { unfold clamp. destruct (Z.ltb_spec skip 0), (Z.ltb_spec (skip + limit) 0); lia. }
  apply dense_get_is_Some; [done|]. fold n. lia.
Qed.

Lemma list_faiss_items_first_page limit m :
  dense m → 0 ≤ limit →
  fi_index <$> list_faiss_items 0 limit m
    = seqZ 0 (Z.min limit (Faiss.ntotal (index m))).
Proof.
  intros Hd Hlimit. rewrite list_faiss_items_indexes by done.
  assert (0 ≤ Faiss.ntotal (index m)) by (unfold Faiss.ntotal; lia).
  apply seqZ_eq. destruct (Z.ltb_spec 0 0), (Z.ltb_spec (0 + limit) 0); lia.
Qed.

(** X8. On a model whose keys are the positions of the index,
    [GET /faiss/list] answers, for any two integers [skip] and [limit], the
    entries of the consecutive positions from [skip] to [skip + limit]
    read as Python slice bounds (a negative bound counts from the end, both
    are clamped to the number of entries), in increasing position order,
    each with the id, question and answer stored at its position.  For
    [skip] and [limit] not negative these are the positions from [skip] on,
    at most [limit] of them and none beyond the last entry. *)
Theorem list_faiss_items_page skip limit m :
  dense m →
  let n := Faiss.ntotal (index m) in
  let clamp := λ x : Z, if Z.ltb x 0 then Z.max (x + n) 0 else Z.min x n in
  let items := list_faiss_items skip limit m in
  fi_index <$> items = seqZ (clamp skip) (clamp (skip + limit) - clamp skip) ∧
  (∀ it, it ∈ items →
     PyDict.get (fi_index it) (faqs (metadata m)) =
       Some {| id := fi_id it; question := fi_question it;
               answer := fi_answer it |}) ∧
  (0 ≤ skip → 0 ≤ limit →
     fi_index <$> items = seqZ skip (Z.min limit (n - skip))).
Proof.
  intros Hd n clamp items.
  assert (0 ≤ n) as Hn by (unfold n, Faiss.ntotal; lia).
  pose proof (list_faiss_items_indexes skip limit m Hd) as Hpage.
  fold n clamp items in Hpage.
  split_and!; [done| |].
  - intros it Hin. by apply collect_items_stored in Hin as [_ ?].
  - intros Hskip Hlimit. rewrite Hpage. unfold clamp.
    apply seqZ_eq.
    destruct (Z.ltb_spec skip 0), (Z.ltb_spec (skip + limit) 0); lia.
Qed.

(** ** [search] and [query] on dense models *)

Lemma search_dense q k m :
  dense m → (0 < k)%nat →
  ∃ rs, search generate_embedding inner_product q k m = Ok rs ∧
    length rs = (k `min` length (index m))%nat ∧
    Forall2 (joined (faqs (metadata m)))
      (real_hits (Faiss.search inner_product (generate_embedding q) k (index m))) rs.
Proof.
  intros Hd Hk. rewrite search_positive by done.
  destruct (join_results_total (faqs (metadata m))
              (Faiss.search inner_product (generate_embedding q) k (index m)))
    as [rs Hrs].
  - intros [s l] (i & x & Hx & _ & ->)%elem_of_real_hits_search. simpl.
    apply dense_get_is_Some; [done|]. apply lookup_lt_Some in Hx.
    unfold Faiss.ntotal. lia.
  - exists rs. split; [done|]. apply join_results_Ok in Hrs. split; [|done].
    by rewrite <- (Forall2_length _ _ _ Hrs), length_real_hits_search.
Qed.

(** ** [find_similar_questions] *)

Lemma find_question_None faq_id d :
  find_question faq_id d = None ↔ ∀ idx f, (idx, f) ∈ d → id f ≠ faq_id.
Proof.
  rewrite <- find_idx_None.
  induction d as [|[k f] d IH]; simpl; [done|].
  by destruct (Z.eqb (id f) faq_id).
Qed.

(** [search_any] on an integer: positive, it is [search] for that many
    slots; otherwise the assertion fails. *)
Lemma search_any_positive q k m :
  0 < k →
  search_any generate_embedding inner_product q (Some k) m =
    search generate_embedding inner_product q (Z.to_nat k) m.
Proof. intros Hk. unfold search_any. by rewrite (proj2 (Z.ltb_lt 0 k)). Qed.

Lemma search_any_not_positive q k m :
  k ≤ 0 →
  search_any generate_embedding inner_product q (Some k) m = Raise AssertionError.
Proof. intros Hk. unfold search_any. by rewrite (proj2 (Z.ltb_ge 0 k)). Qed.

Lemma length_filter_le {A} (f : A → bool) (l : list A) :
  (length (List.filter f l) ≤ length l)%nat.
Proof. induction l as [|x l IH]; simpl; [lia|]. destruct (f x); simpl; lia. Qed.

(** X9. [GET /faiss/similar-questions/{faq_id}] for any integer [top_k], on
    a model whose keys are the positions of the index.  It answers 404
    exactly when no entry carries the id or the question of the first entry
    that carries it is the empty string, whatever [top_k] is.  Otherwise,
    for [top_k <= -1] the search is asked for [top_k + 1 <= 0] slots and the
    request fails with the [AssertionError] of FAISS; for [top_k >= 0] the
    search for [top_k + 1] slots returns, and the answer is exactly those of
    its results whose id differs from [faq_id] and whose similarity is at
    least the threshold, in the order of the search, by decreasing
    similarity; there are at most [top_k + 1] of them and never more than
    the index holds. *)
Theorem find_similar_questions_excludes_itself faq_id threshold top_k m :
  dense m →
  let answer :=
    find_similar_questions generate_embedding inner_product faq_id threshold
      top_k m in
  let not_found :=
    HTTPException 404 ("FAQ with ID " ++ pretty.pretty faq_id ++ " not found")%string in
  (find_question faq_id (faqs (metadata m)) = None ↔
   ∀ idx f, (idx, f) ∈ faqs (metadata m) → id f ≠ faq_id) ∧
  (find_question faq_id (faqs (metadata m)) = None ∨
   find_question faq_id (faqs (metadata m)) = Some "" ↔
   answer = Ok not_found) ∧
  (∀ q, find_question faq_id (faqs (metadata m)) = Some q → q ≠ "" →
     (top_k < 0 → answer = Raise AssertionError) ∧
     (0 ≤ top_k →
        ∃ found,
          search generate_embedding inner_product q (Z.to_nat (top_k + 1)) m
            = Ok found ∧
          answer =
            Ok (Respond
                  (List.filter
                     (λ r, negb (Z.eqb (sr_id r) faq_id)
                           && PrimFloat.leb threshold (sr_similarity r)) found)) ∧
          ∀ rs, answer = Ok (Respond rs) →
            (∀ r, r ∈ rs ↔
                  r ∈ found ∧ sr_id r ≠ faq_id ∧
                  PrimFloat.leb threshold (sr_similarity r) = true) ∧
            by_decreasing_similarity rs ∧
            (length rs ≤ Z.to_nat (top_k + 1) `min` length (index m))%nat)).
Proof.
  intros Hd answer not_found.
  assert (∀ q, find_question faq_id (faqs (metadata m)) = Some q → q ≠ "" →
            answer = search_any generate_embedding inner_product q
                       (Some (top_k + 1)) m ≫= λ results,
                     Ok (Respond
                           (List.filter
                              (λ r, negb (Z.eqb (sr_id r) faq_id)
                                    && PrimFloat.leb threshold (sr_similarity r))
                              results))) as Hsome.
  { intros q Hq Hne. unfold answer, find_similar_questions. rewrite Hq.
    by destruct q. }
  split_and!.
  - apply find_question_None.
  - unfold answer, find_similar_questions. split.
    + by intros [-> | ->].
    + destruct (find_question faq_id (faqs (metadata m))) as [[|c q]|];
        [by right| |by left].
      intros Heq. exfalso. revert Heq.
      by destruct (search_any _ _ _ _ _).
  - intros q Hq Hne. rewrite (Hsome q Hq Hne). split.
    + intros Hneg. by rewrite search_any_not_positive by lia.
    + intros Hpos. rewrite search_any_positive by lia.
      destruct (search_dense q (Z.to_nat (top_k + 1)) m Hd)
        as (found & Hfound & Hlen & _); [lia|].
      exists found. rewrite Hfound. split_and!; [done..|].
      intros rs [= <-]. split_and!.
      * intros r. rewrite list_elem_of_In, filter_In, <- list_elem_of_In.
        rewrite andb_true_iff, negb_true_iff, Z.eqb_neq. tauto.
      * eapply search_kept_by_decreasing_similarity with (t := threshold);
          [exact Hfound|].
        intros r _ [_ ?]%andb_true_iff. done.
      * rewrite <- Hlen. apply length_filter_le.
Qed.

(** ** [query] on any request body *)

(** A body with both optional fields present is answered as [query]
    answers, an integer that is not positive failing as no slot does. *)
Lemma query_request_present high q t k m :
  query_request generate_embedding inner_product high
    {| req_query := q; req_threshold := Some t; req_top_k := Some k |} m =
  query generate_embedding inner_product high
    {| query_text := q; threshold := t; top_k := Z.to_nat k |} m.
Proof.
  unfold query_request, query.
  cbn [req_query req_threshold req_top_k query_text threshold top_k].
  destruct (Z.lt_ge_cases 0 k) as [Hk|Hk].
  - rewrite search_any_positive by done. by destruct (search _ _ _ _ _).
  - rewrite search_any_not_positive by done.
    by replace (Z.to_nat k) with 0%nat by lia.
Qed.

(** X10. [POST /query] on any body that passes validation, on a model
    whose keys are the positions of the index.  A body whose [top_k] is
    [null] fails with [TypeError] and one whose [top_k] is not positive with
    the [AssertionError] of FAISS, whatever the threshold.  For a positive
    [top_k]: with [threshold] being [null] the request fails with
    [TypeError] unless the index is empty, and then the answer is the empty
    list of alternatives; with a threshold present the request never fails
    and is answered as [query] answers.  Then a best-match answer carries a
    similarity above the high-confidence threshold and not below the
    threshold of the request; a list of alternatives has at most [top_k]
    elements and never more than the index holds, each with a similarity
    that is not below the threshold of the request and not above the
    high-confidence threshold. *)
Theorem query_on_dense_model high input m :
  dense m →
  let answer := query_request generate_embedding inner_product high input m in
  (req_top_k input = None → answer = Raise TypeError) ∧
  (∀ k, req_top_k input = Some k → k ≤ 0 → answer = Raise AssertionError) ∧
  (∀ k, req_top_k input = Some k → 0 < k → req_threshold input = None →
     (index m = [] → answer = Ok (Alternatives [])) ∧
     (index m ≠ [] → answer = Raise TypeError)) ∧
  (∀ k t, req_top_k input = Some k → 0 < k → req_threshold input = Some t →
     answer = query generate_embedding inner_product high
                {| query_text := req_query input; threshold := t;
                   top_k := Z.to_nat k |} m ∧
     ∃ resp, answer = Ok resp ∧
       match resp with
       | BestMatch _ _ s =>
           PrimFloat.ltb high s = true ∧ PrimFloat.leb t s = true
       | Alternatives alts =>
           (length alts ≤ Z.to_nat k `min` length (index m))%nat ∧
           ∀ i q s, (i, q, s) ∈ alts →
             PrimFloat.leb t s = true ∧ PrimFloat.ltb high s = false
       end).
Proof.
  intros Hd answer. unfold answer. split_and!.
  - unfold query_request. by intros ->.
  - unfold query_request. intros k -> Hk. by rewrite search_any_not_positive.
  - unfold query_request. intros k -> Hk ->.
    rewrite search_any_positive by done.
    destruct (search_dense (req_query input) (Z.to_nat k) m Hd)
      as (rs & -> & Hlen & _); [lia|].
    split.
    + intros Hempty. rewrite Hempty in Hlen. simpl in Hlen.
      rewrite Nat.min_0_r in Hlen. by destruct rs.
    + intros Hne. destruct rs as [|r rs]; [|done].
      destruct (index m); [done|]. simpl in Hlen. lia.
  - intros k t Hkeq Hk Hteq.
    assert (query_request generate_embedding inner_product high input m =
            query generate_embedding inner_product high
              {| query_text := req_query input; threshold := t;
                 top_k := Z.to_nat k |} m) as ->.
    { destruct input as [q0 t0 k0]. simpl in Hkeq, Hteq. subst.
      by apply query_request_present. }
    split; [done|]. unfold query. cbn [query_text threshold top_k].
    destruct (search_dense (req_query input) (Z.to_nat k) m Hd)
      as (rs & Hrs & Hlen & _); [lia|].
    rewrite Hrs. simpl.
    eexists. split; [done|].
    pose proof (search_kept_by_decreasing_similarity _ _ _ _ _ _ (passes t) t
                  Hrs (λ r _ H, H)) as Hsorted.
    set (kept := List.filter (passes t) rs) in *.
    assert (∀ r, r ∈ kept → PrimFloat.leb t (sr_similarity r) = true) as Hkept.
    { intros r Hr. by apply elem_of_filter_passes in Hr as [_ ?]. }
    assert (length kept ≤ length rs)%nat as Hle by apply length_filter_le.
    destruct kept as [|best rest] eqn:Hk'; [split; [simpl; lia|]; by intros ??? ?%elem_of_nil|].
    rewrite classify_cons.
    destruct (PrimFloat.ltb high (sr_similarity best)) eqn:Hhigh.
    { split; [done|]. apply Hkept. left. }
    split; [rewrite length_fmap; lia|].
    intros i q s (r & [= -> -> ->] & Hr)%list_elem_of_fmap.
    split; [by apply Hkept|].
    apply (not_above_first high best rest r Hsorted Hhigh Hr).
Qed.

(** ** The stored consistency check under writes *)

Lemma stored_run_creations ts fs m :
  consistency_check (metadata (run generate_embedding (creations ts fs) m))
    = consistency_check (metadata m).
Proof.
  revert ts m. induction fs as [|f fs IH]; intros [|t ts] m; try done.
  simpl. by rewrite IH.
Qed.

(** X11. A stored consistency check survives any bulk import (any sequence
    of creations and updates): the status query answers the same before and
    after.  The first deletion that finds its id erases it: after it the
    status query answers that no check was ever run, whatever had been
    stored. *)
Theorem stored_check_kept_by_imports_erased_by_delete clock items now faq_id m :
  get_consistency_status (bulk_index generate_embedding clock items m).2
    = get_consistency_status m ∧
  ((delete_faq now faq_id m).1 = true →
   get_consistency_status (delete_faq now faq_id m).2 = NeverRun).
Proof.
  split.
  - unfold get_consistency_status, bulk_index. simpl.
    destruct (process_bulk_indexing_run clock items 0%nat m) as (ts & _ & ->).
    by rewrite stored_run_creations.
  - unfold delete_faq. by destruct (find_idx faq_id (faqs (metadata m))).
Qed.

(** ** Importing new FAQs *)

Lemma FAQItem_eta (f : FAQItem) :
  {| id := id f; question := question f; answer := answer f |} = f.
Proof. by destruct f. Qed.

Lemma run_creations_new ts items m :
  length ts = length items →
  well_formed generate_embedding m →
  NoDup (id <$> items) →
  (∀ f, f ∈ items → id f ∉ faiss_ids m) →
  let m' := run generate_embedding (creations ts items) m in
  well_formed generate_embedding m' ∧
  faqs (metadata m') =
    faqs (metadata m) ++
      imap (λ j f, (Faiss.ntotal (index m) + Z.of_nat j, f)) items ∧
  index m' = index m ++ ((generate_embedding ∘ question) <$> items) ∧
  faiss_ids m' = faiss_ids m ∪ list_to_set (id <$> items).
Proof.
  clear inner_product.
  revert ts m. induction items as [|f items IH]; intros ts m Hlen Hwf Hnd Hnew.
  - destruct ts; [|done]. simpl. rewrite !app_nil_r.
    split_and!; [done..|set_solver].
  - destruct ts as [|t ts]; [done|]. injection Hlen as Hlen.
    rewrite fmap_cons in Hnd. apply NoDup_cons in Hnd as [Hf Hnd].
    pose proof Hwf as (Hd & _ & _).
    assert (find_idx (id f) (faqs (metadata m)) = None) as Hfind.
    { apply find_idx_None_faiss_ids, Hnew. left. }
    set (m1 := (add_or_update_faq generate_embedding t (id f) (question f)
                  (answer f) m).2).
    destruct (add_new_shape t (id f) (question f) (answer f) m Hd Hfind)
      as (_ & Hix1 & Hfaqs1).
    fold m1 in Hix1, Hfaqs1. rewrite FAQItem_eta in Hfaqs1.
    pose proof (faiss_ids_add_new t (id f) (question f) (answer f) m Hd Hfind)
      as Hids1.
    fold m1 in Hids1.
    destruct (IH ts m1 Hlen) as (Hwf' & Hfaqs' & Hix' & Hids').
    + by apply well_formed_add_new.
    + done.
    + intros g Hg. rewrite Hids1. apply not_elem_of_union. split.
      * rewrite not_elem_of_singleton. intros Heq. apply Hf.
        apply list_elem_of_fmap. by exists g.
      * apply Hnew. by right.
    + change (run generate_embedding (creations (t :: ts) (f :: items)) m)
        with (run generate_embedding (creations ts items) m1).
      assert (Faiss.ntotal (index m1) = Faiss.ntotal (index m) + 1) as Hn1.
      { rewrite Hix1. unfold Faiss.ntotal. rewrite length_app. simpl. lia. }
      rewrite Hn1 in Hfaqs'.
      split_and!; [done| | |].
      * rewrite Hfaqs', Hfaqs1, <- app_assoc. f_equal. simpl. f_equal.
        { f_equal. lia. }
        apply imap_ext. intros j g _. simpl. f_equal. lia.
      * rewrite Hix', Hix1, <- app_assoc. done.
      * rewrite Hids', Hids1, fmap_cons. set_solver.
Qed.

(** X12. A bulk import of FAQs with pairwise different ids, none of them
    indexed yet, into a model with dense keys, no duplicate id and entries
    aligned with their vectors: the items are appended in order, item [j]
    at position [ntotal + j] with its own question, answer and embedding;
    the result is again dense, free of duplicates and aligned, and the
    indexed ids are the old ones and the imported ones. *)
Theorem bulk_index_new_items_appended clock items m :
  well_formed generate_embedding m →
  NoDup (id <$> items) →
  (∀ f, f ∈ items → id f ∉ faiss_ids m) →
  let m' := (bulk_index generate_embedding clock items m).2 in
  well_formed generate_embedding m' ∧
  faqs (metadata m') =
    faqs (metadata m) ++
      imap (λ j f, (Faiss.ntotal (index m) + Z.of_nat j, f)) items ∧
  index m' = index m ++ ((generate_embedding ∘ question) <$> items) ∧
  faiss_ids m' = faiss_ids m ∪ list_to_set (id <$> items).
Proof.
  clear inner_product.
  intros Hwf Hnd Hnew m'. unfold m', bulk_index. simpl.
  destruct (process_bulk_indexing_run clock items 0%nat m) as (ts & Hlen & ->).
  by apply run_creations_new.
Qed.

(** ** Reconciliation of a well-formed model *)

Lemma entry_survives_delete now faq_id m k g :
  dense m → PyDict.get k (faqs (metadata m)) = Some g → id g ≠ faq_id →
  ∃ k', PyDict.get k' (faqs (metadata (delete_faq now faq_id m).2)) = Some g.
Proof.
  intros Hd Hget Hne.
  destruct (find_idx faq_id (faqs (metadata m))) as [p|] eqn:Hfind.
  - destruct (delete_faq_known now faq_id m p Hd Hfind)
      as (_ & _ & _ & _ & Hbelow & Habove).
    destruct (find_idx_get _ _ _ Hd Hfind) as (f & Hf & Hid).
    destruct (Z.lt_trichotomy k p) as [Hlt|[->|Hgt]].
    + exists k. by apply Hbelow.
    + congruence.
    + exists (k - 1). by apply Habove.
  - exists k. unfold delete_faq. by rewrite Hfind.
Qed.

Lemma run_deletions ts ids m :
  length ts = length ids →
  well_formed generate_embedding m →
  let m' := run generate_embedding (deletions ts ids) m in
  well_formed generate_embedding m' ∧
  faiss_ids m' = faiss_ids m ∖ list_to_set ids ∧
  (∀ k g, PyDict.get k (faqs (metadata m)) = Some g → id g ∉ ids →
          ∃ k', PyDict.get k' (faqs (metadata m')) = Some g).
Proof.
  clear inner_product.
  revert ts m. induction ids as [|i ids IH]; intros ts m Hlen Hwf.
  - destruct ts; [|done]. simpl. split_and!; [done|set_solver|eauto].
  - destruct ts as [|t ts]; [done|]. injection Hlen as Hlen.
    pose proof Hwf as (Hd & Hu & _).
    set (m1 := (delete_faq t i m).2).
    destruct (IH ts m1 Hlen) as (Hwf' & Hids' & Hkeep').
    { by apply well_formed_delete_faq. }
    change (run generate_embedding (deletions (t :: ts) (i :: ids)) m)
      with (run generate_embedding (deletions ts ids) m1).
    split_and!; [done| |].
    + rewrite Hids'. unfold m1. rewrite faiss_ids_delete_faq by done. set_solver.
    + intros k g Hget Hout. apply not_elem_of_cons in Hout as [Hne Hout].
      destruct (entry_survives_delete t i m k g Hd Hget Hne) as [k1 Hk1].
      by apply (Hkeep' k1).
Qed.

Lemma get_app_l {V} (d1 d2 : list (Z * V)) k v :
  PyDict.get k d1 = Some v → PyDict.get k (d1 ++ d2) = Some v.
Proof.
  induction d1 as [|[k1 v1] d1 IH]; simpl; [done|].
  by destruct (Z.eqb k k1).
Qed.

Lemma add_missing_nothing clock fs n m :
  add_missing generate_embedding clock ∅ fs n m = (n, m).
Proof. induction fs as [|f fs IH]; simpl; [done|]. apply IH. Qed.

(** X13. Reconciliation of a model with dense keys, no duplicate id and
    aligned entries against a listing with pairwise different ids: after
    the run the indexed ids are exactly the listed ids and the model is
    again dense, free of duplicates and aligned; every listed record whose
    id was not indexed is stored with the question and answer of the
    listing; every entry whose id is listed is kept as it was, so the text
    of a FAQ that is already indexed is not refreshed from the listing.  A
    second run on the same listing reports ["consistent"] with nothing
    missing and nothing orphaned, and leaves the model as it is. *)
Theorem perform_check_reaches_the_listing clock1 clock2 fs m :
  well_formed generate_embedding m →
  NoDup (id <$> fs) →
  let first := perform_check generate_embedding clock1 (HttpResponse 200 (inr fs)) m in
  let second :=
    perform_check generate_embedding clock2 (HttpResponse 200 (inr fs)) first.1 in
  faiss_ids first.1 = list_to_set (id <$> fs) ∧
  well_formed generate_embedding first.1 ∧
  (∀ f, f ∈ fs → id f ∉ faiss_ids m →
        ∃ k, PyDict.get k (faqs (metadata first.1)) = Some f) ∧
  (∀ k g, PyDict.get k (faqs (metadata m)) = Some g → id g ∈ (id <$> fs) →
          ∃ k', PyDict.get k' (faqs (metadata first.1)) = Some g) ∧
  second.1 = first.1 ∧
  status second.2 = "consistent" ∧
  missing_in_faiss second.2 = [] ∧
  orphaned_in_faiss second.2 = [].
Proof.
  clear inner_product.
  intros Hwf Hnd first second.
  set (P := list_to_set (id <$> fs) : gset Z).
  set (missing := P ∖ faiss_ids m).
  set (orphaned := faiss_ids m ∖ P).
  set (to_add := filter (λ f, id f ∈ missing) fs).
  (* the run as creations followed by deletions *)
  assert (∃ ts1 ts2, length ts1 = length to_add ∧
            length ts2 = length (elements orphaned) ∧
            first.1 = run generate_embedding (deletions ts2 (elements orphaned))
                        (run generate_embedding (creations ts1 to_add) m))
    as (ts1 & ts2 & Hl1 & Hl2 & Hfirst).
  { unfold first. rewrite perform_check_fetched. simpl.
    fold P. fold missing. fold orphaned.
    destruct (add_missing_run generate_embedding clock1 missing fs 0%nat m)
      as (ts1 & Hl1 & Hr1).
    destruct (remove_orphaned_run generate_embedding clock1 (elements orphaned)
                (add_missing generate_embedding clock1 missing fs 0 m).1
                (add_missing generate_embedding clock1 missing fs 0 m).2)
      as (ts2 & Hl2 & Hr2).
    exists ts1, ts2. split_and!; [done..|]. by rewrite Hr2, Hr1. }
  assert (list_to_set (id <$> to_add) = missing) as Hadded.
  { apply set_eq. intros i. rewrite elem_of_list_to_set, list_elem_of_fmap.
    unfold to_add. split.
    - intros (f & -> & [Hm _]%list_elem_of_filter). done.
    - intros Hi. pose proof Hi as [HiP _]%elem_of_difference.
      apply elem_of_list_to_set, list_elem_of_fmap in HiP as (f & -> & Hf).
      exists f. split; [done|]. by apply list_elem_of_filter. }
  destruct (run_creations_new ts1 to_add m Hl1 Hwf)
    as (Hwf1 & Hfaqs1 & _ & Hids1).
  { by apply NoDup_fmap_filter. }
  { intros f [Hm _]%list_elem_of_filter. by apply elem_of_difference in Hm as [_ ?]. }
  destruct (run_deletions ts2 (elements orphaned) _ Hl2 Hwf1)
    as (Hwf2 & Hids2 & Hkeep2).
  rewrite <- Hfirst in Hwf2, Hids2, Hkeep2.
  rewrite list_to_set_elements_L, Hids1, Hadded in Hids2.
  assert (faiss_ids first.1 = P) as HP.
  { rewrite Hids2. unfold missing, orphaned. apply set_eq. intros i.
    rewrite !elem_of_difference, elem_of_union, !elem_of_difference.
    destruct (decide (i ∈ faiss_ids m)), (decide (i ∈ P)); tauto. }
  assert (∀ f, f ∈ fs → id f ∉ orphaned) as Hlisted.
  { intros f Hf [_ Hout]%elem_of_difference. apply Hout.
    apply elem_of_list_to_set, list_elem_of_fmap. by exists f. }
  split_and!; [done|done| | |..].
  - intros f Hf Hnew.
    assert (f ∈ to_add) as Hin.
    { apply list_elem_of_filter. split; [|done]. apply elem_of_difference.
      split; [|done]. apply elem_of_list_to_set, list_elem_of_fmap. by exists f. }
    apply list_elem_of_lookup in Hin as [j Hj].
    assert (PyDict.get (Faiss.ntotal (index m) + Z.of_nat j)
              (faqs (metadata (run generate_embedding (creations ts1 to_add) m)))
            = Some f) as Hget.
    { apply elem_get; [apply Hwf1|]. rewrite Hfaqs1. apply elem_of_app. right.
      apply (elem_of_lookup_imap_2
               (λ (j : nat) (f : FAQItem), (Faiss.ntotal (index m) + Z.of_nat j, f))
               to_add f j Hj). }
    apply (Hkeep2 _ _ Hget). rewrite elem_of_elements. by apply Hlisted.
  - intros k g Hget (f & Hid & Hf)%list_elem_of_fmap.
    apply (Hkeep2 k).
    + rewrite Hfaqs1. by apply get_app_l.
    + rewrite elem_of_elements, Hid. by apply Hlisted.
  - (* the second run *)
    unfold second. rewrite perform_check_fetched. simpl.
    fold P. rewrite HP. rewrite difference_diag_L.
    rewrite add_missing_nothing. simpl. by rewrite elements_empty.
  - unfold second. rewrite perform_check_fetched. simpl.
    fold P. rewrite HP, difference_diag_L.
    by rewrite bool_decide_eq_false_2 by tauto.
  - unfold second. rewrite perform_check_fetched. simpl.
    fold P. by rewrite HP, difference_diag_L, elements_empty.
  - unfold second. rewrite perform_check_fetched. simpl.
    fold P. by rewrite HP, difference_diag_L, elements_empty.
Qed.

(** ** [PUT /faqs/{faq_id}] *)

Lemma add_or_update_faq_position now faq_id q a m :
  dense m →
  let r := add_or_update_faq generate_embedding now faq_id q a m in
  r.1 = Faiss.ntotal (index r.2) - 1 ∧
  PyDict.get r.1 (faqs (metadata r.2))
    = Some {| id := faq_id; question := q; answer := a |} ∧
  index r.2 !! Z.to_nat r.1 = Some (generate_embedding q) ∧
  Faiss.ntotal (index r.2) =
    (if bool_decide (faq_id ∈ faiss_ids m)
     then Faiss.ntotal (index m) else Faiss.ntotal (index m) + 1) ∧
  faq_id ∈ faiss_ids r.2.
Proof.
  intros Hd r.
  assert (PyDict.get r.1 (faqs (metadata r.2))
          = Some {| id := faq_id; question := q; answer := a |}) as Hget.
  { unfold r, add_or_update_faq. simpl. by rewrite get_set, Z.eqb_refl. }
  assert (index r.2 !! Z.to_nat r.1 = Some (generate_embedding q)) as Hvec.
  { unfold r, add_or_update_faq, Faiss.add, Faiss.ntotal. simpl.
    rewrite Nat2Z.id. by rewrite list_lookup_middle. }
  assert (r.1 = Faiss.ntotal (index r.2) - 1) as Hpos.
  { unfold r, add_or_update_faq. simpl. rewrite ntotal_add. lia. }
  split_and!; [done..| |].
  - destruct (find_idx faq_id (faqs (metadata m))) as [p|] eqn:Hfind.
    + rewrite bool_decide_eq_true_2.
      * destruct (add_or_update_faq_existing generate_embedding now faq_id q a m p Hd
                    Hfind) as (Hr & _). fold r in Hr. lia.
      * destruct (find_idx_Some _ _ _ Hfind) as (f & Hin & Hid).
        apply elem_of_faiss_ids. by exists p, f.
    + rewrite bool_decide_eq_false_2 by by apply find_idx_None_faiss_ids.
      destruct (add_new_shape now faq_id q a m Hd Hfind) as (Hr & _).
      fold r in Hr. lia.
  - apply elem_of_faiss_ids.
    exists r.1, {| id := faq_id; question := q; answer := a |}.
    split; [by apply get_Some_elem | done].
Qed.

(** X14. [PUT /faqs/{faq_id}] with a body whose id differs from the path
    answers 400 and leaves the model untouched.  With matching ids, on a
    model with dense keys, it answers the id and a position; that position
    is the last one of the index and holds the embedding of the new
    question, and the metadata entry under it is the body; the index grows
    by one vector when the id was not indexed and keeps its size when it
    was, so sending the same body a second time does not change the number
    of vectors. *)
Theorem update_faq_writes_last_position now now' faq_id faq m :
  (id faq ≠ faq_id →
     update_faq generate_embedding now faq_id faq m
       = (HTTPException 400 "FAQ ID in path does not match body", m)) ∧
  (id faq = faq_id → dense m →
     ∃ idx,
       let m' := (update_faq generate_embedding now faq_id faq m).2 in
       let m'' := (update_faq generate_embedding now' faq_id faq m').2 in
       (update_faq generate_embedding now faq_id faq m).1 = Respond (faq_id, idx) ∧
       idx = Faiss.ntotal (index m') - 1 ∧
       PyDict.get idx (faqs (metadata m')) = Some faq ∧
       index m' !! Z.to_nat idx = Some (generate_embedding (question faq)) ∧
       Faiss.ntotal (index m') =
         (if bool_decide (faq_id ∈ faiss_ids m)
          then Faiss.ntotal (index m) else Faiss.ntotal (index m) + 1) ∧
       Faiss.ntotal (index m'') = Faiss.ntotal (index m')).
Proof.
  split.
  - intros Hne. unfold update_faq.
    by rewrite (proj2 (Z.eqb_neq _ _) Hne).
  - intros <- Hd.
    assert (∀ t n, update_faq generate_embedding t (id faq) faq n
              = (Respond (id faq,
                   (add_or_update_faq generate_embedding t (id faq) (question faq)
                      (answer faq) n).1),
                 (add_or_update_faq generate_embedding t (id faq) (question faq)
                    (answer faq) n).2)) as Hupd.
    { intros t n. unfold update_faq. rewrite Z.eqb_refl. simpl.
      by destruct (add_or_update_faq generate_embedding t (id faq) (question faq)
                    (answer faq) n). }
    eexists. cbv zeta. rewrite !Hupd. cbn [fst snd].
    destruct (add_or_update_faq_position now (id faq) (question faq) (answer faq)
                m Hd) as (Hpos & Hget & Hvec & Hn & Hknown).
    rewrite FAQItem_eta in Hget.
    split_and!; [done..|].
    set (m' := (add_or_update_faq generate_embedding now (id faq) (question faq)
                  (answer faq) m).2) in *.
    assert (dense m') as Hd' by by apply dense_add_or_update_faq.
    destruct (add_or_update_faq_position now' (id faq) (question faq) (answer faq)
                m' Hd') as (_ & _ & _ & Hn' & _).
    by rewrite bool_decide_eq_true_2 in Hn'.
Qed.

(** ** Rebuilding the index *)

Lemma well_formed_reset t1 t2 m :
  well_formed generate_embedding (reset_faiss_index t1 t2 m).
Proof.
  split_and!; [|apply NoDup_nil_2|done].
  split; [apply NoDup_nil_2|]. intros k. unfold Faiss.ntotal. simpl.
  split; [intros H; inversion H|lia].
Qed.

(** X15. After [DELETE /faiss/reset] and a bulk import of FAQs with
    pairwise different ids, whatever the model held before: the index holds
    the embeddings of the imported questions in import order; the first
    page of [GET /faiss/list] shows positions 0, 1, ... up to [limit]
    items, the item of position [j] being the [j]-th imported FAQ; and
    [GET /faiss/stats] reports as many vectors and as many different ids as
    there are items, and no duplicates. *)
Theorem reset_then_bulk_index clock items t1 t2 limit m :
  NoDup (id <$> items) → 0 ≤ limit →
  let m' := (bulk_index generate_embedding clock items
               (reset_faiss_index t1 t2 m)).2 in
  let n := Z.of_nat (length items) in
  index m' = (generate_embedding ∘ question) <$> items ∧
  fi_index <$> list_faiss_items 0 limit m' = seqZ 0 (Z.min limit n) ∧
  (∀ it, it ∈ list_faiss_items 0 limit m' →
     items !! Z.to_nat (fi_index it) =
       Some {| id := fi_id it; question := fi_question it;
               answer := fi_answer it |}) ∧
  total_vectors (get_faiss_stats m') = n ∧
  unique_faq_ids (get_faiss_stats m') = n ∧
  has_duplicates (get_faiss_stats m') = false.
Proof.
  clear inner_product.
  intros Hnd Hlimit m' n.
  destruct (process_bulk_indexing_run clock items 0%nat (reset_faiss_index t1 t2 m))
    as (ts & Hlen & Hrun).
  destruct (run_creations_new ts items (reset_faiss_index t1 t2 m) Hlen
              (well_formed_reset t1 t2 m) Hnd) as ((Hd & Hu & Ha) & Hfaqs & Hix & _).
  { intros f _ (k & g & Hin & _)%elem_of_faiss_ids. inversion Hin. }
  rewrite <- Hrun in Hd, Hu, Ha, Hfaqs, Hix.
  change (process_bulk_indexing generate_embedding clock items 0
            (reset_faiss_index t1 t2 m)) with m' in Hd, Hu, Ha, Hfaqs, Hix.
  simpl in Hfaqs, Hix.
  assert (Faiss.ntotal (index m') = n) as Hn.
  { unfold Faiss.ntotal, n. by rewrite Hix, length_fmap. }
  split_and!.
  - done.
  - rewrite list_faiss_items_first_page by done. by rewrite Hn.
  - intros it Hin. apply collect_items_stored in Hin as [_ Hget].
    apply get_Some_elem in Hget. rewrite Hfaqs in Hget.
    apply elem_of_lookup_imap in Hget as (j & f & [= -> ->] & Hj).
    replace (Z.to_nat _) with j by (unfold Faiss.ntotal; simpl; lia). done.
  - done.
  - by rewrite stats_counts_agree.
  - destruct (has_duplicates (get_faiss_stats m')) eqn:Hs; [|done].
    by destruct (stats_some_duplicates m').
Qed.

(** ** Every handler that writes keeps the keys dense *)

(** X16. If the keys of the metadata are the positions of the index, they
    still are after each handler that writes: creation, update (with
    matching or differing ids), deletion (found or not), bulk import, the
    consistency check whatever the fetch does, and storing a check result;
    a reset and a start without files give such a model from anything. *)
Theorem dense_kept_by_every_write now now' faq_id faq clock items resp r m :
  dense (reset_faiss_index now now' m) ∧
  dense (load_index (vec := vec) now None) ∧
  (dense m →
     dense (create_faq generate_embedding now faq m).2 ∧
     dense (update_faq generate_embedding now faq_id faq m).2 ∧
     dense (delete_faq_endpoint now faq_id m).2 ∧
     dense (bulk_index generate_embedding clock items m).2 ∧
     dense (check_and_reindex generate_embedding clock resp m).2 ∧
     dense (save_consistency_result now now' r m)).
Proof.
  split_and!.
  - apply well_formed_reset.
  - split; [apply NoDup_nil_2|]. intros k. unfold Faiss.ntotal. simpl.
    split; [intros H; inversion H|lia].
  - intros Hd.
    pose proof (dense_add_or_update_faq generate_embedding now (id faq)
                  (question faq) (answer faq) m Hd) as Hadd.
    split_and!.
    + unfold create_faq.
      by destruct (add_or_update_faq generate_embedding now (id faq) (question faq)
                     (answer faq) m).
    + unfold update_faq. destruct (negb (Z.eqb (id faq) faq_id)); [done|].
      by destruct (add_or_update_faq generate_embedding now (id faq) (question faq)
                     (answer faq) m).
    + pose proof (dense_delete_faq now faq_id m Hd) as Hdel.
      unfold delete_faq_endpoint.
      destruct (delete_faq now faq_id m) as [success m'].
      by destruct success.
    + unfold bulk_index. simpl.
      destruct (process_bulk_indexing_run clock items 0%nat m) as (ts & _ & ->).
      by apply dense_run.
    + unfold check_and_reindex. simpl.
      destruct (perform_check_run clock resp m) as [ops ->].
      by apply dense_run.
    + done.
Qed.

End MoreProperties.

(** * More statements at work on the toy instance *)

Ltac no_entry_in_three :=
  let Hin := fresh "Hin" in
  intros ? ? Hin; vm_compute in Hin;
  repeat (apply elem_of_cons in Hin as [[= -> ->]|Hin]; [done|]);
  inversion Hin.

Lemma ids_unique_three : ids_unique Demo.three.
Proof. unfold ids_unique. compute_done. Qed.

Lemma well_formed_three : well_formed Demo.embed Demo.three.
Proof.
  split_and!; [apply dense_three|apply ids_unique_three|].
  intros k f Hget.
  pose proof (dense_get_position Demo.three k f dense_three Hget) as Hk.
  change (Faiss.ntotal (index Demo.three)) with 3 in Hk.
  assert (k = 0 ∨ k = 1 ∨ k = 2) as [-> | [-> | ->]] by lia;
    vm_compute in Hget; by injection Hget as <-.
Qed.

Lemma add_or_update_faq_new_id_appends_witness :
  (add_or_update_faq Demo.embed "t4" 40 "q40" None Demo.three).1 = 3 ∧
  dense (add_or_update_faq Demo.embed "t4" 40 "q40" None Demo.three).2.
Proof.
  destruct (add_or_update_faq_new_id_appends Demo.embed "t4" 40 "q40" None
              Demo.three dense_three) as (Hpos & _ & _ & _ & _ & Hd).
  - no_entry_in_three.
  - by split.
Defined.

Lemma appending_run_well_formed_witness :
  well_formed Demo.embed
    (run Demo.embed [Delete "t4" 20;
                     CreateOrUpdate "t5" 30 "q30 again" None;
                     CreateOrUpdate "t6" 50 "q50" None] Demo.three).
Proof.
  apply appending_run_well_formed; [apply well_formed_three|].
  vm_compute. tauto.
Defined.

Lemma add_or_update_faq_existing_id_unique_iff_last_witness :
  ¬ ids_unique (add_or_update_faq Demo.embed "t4" 10 "q10 again" None Demo.three).2 ∧
  30 ∉ faiss_ids (add_or_update_faq Demo.embed "t4" 10 "q10 again" None Demo.three).2.
Proof.
  destruct (add_or_update_faq_existing_id_unique_iff_last Demo.embed "t4" 10
              "q10 again" None Demo.three 0
              {| id := 10; question := "q10"; answer := None |}
              dense_three ids_unique_three) as [Hiff Hlost].
  - left.
  - done.
  - split.
    + intros Hu. apply Hiff in Hu. vm_compute in Hu. done.
    + destruct Hlost as [_ Hlost]; [vm_compute; done|].
      by apply (Hlost {| id := 30; question := "q30"; answer := None |}).
Defined.

Lemma delete_faq_removes_one_entry_witness :
  occurrences 20 (faqs (metadata (delete_faq "t4" 20 Demo.three).2)) = 0%nat ∧
  length (index (delete_faq "t4" 20 Demo.three).2) = 2%nat.
Proof.
  destruct (delete_faq_removes_one_entry "t4" 20 Demo.three 1
              {| id := 20; question := "q20"; answer := None |} dense_three)
    as (Hocc & _ & _ & Hlen).
  - right. left.
  - done.
  - by rewrite Hocc, Hlen.
Defined.

Lemma delete_faq_endpoint_twice_witness :
  (delete_faq_endpoint "t4" 20 Demo.three).1 = Respond 20 ∧
  (delete_faq_endpoint "t5" 20 (delete_faq_endpoint "t4" 20 Demo.three).2).1
    = HTTPException 404 "FAQ with ID 20 not found".
Proof.
  destruct (delete_faq_endpoint_twice "t4" "t5" 20 Demo.three 1
              {| id := 20; question := "q20"; answer := None |}
              dense_three ids_unique_three) as (Hfirst & _ & Hsecond).
  - right. left.
  - done.
  - split; [done|]. by rewrite Hsecond.
Defined.

Lemma get_faiss_stats_reports_duplicates_witness :
  unique_faq_ids (get_faiss_stats Demo.three)
    = total_vectors (get_faiss_stats Demo.three).
Proof.
  by apply (get_faiss_stats_reports_duplicates Demo.three); [apply dense_three|].
Defined.

Lemma list_faiss_items_page_witness :
  fi_index <$> list_faiss_items 1 5 Demo.three = [1; 2] ∧
  fi_index <$> list_faiss_items (-1) 5 Demo.three = [2].
Proof.
  split.
  - destruct (list_faiss_items_page 1 5 Demo.three dense_three) as (_ & _ & Hpage).
    by rewrite Hpage.
  - destruct (list_faiss_items_page (-1) 5 Demo.three dense_three) as (Hpage & _).
    by rewrite Hpage.
Defined.

Lemma find_similar_questions_excludes_itself_witness :
  (∃ rs, find_similar_questions Demo.embed Demo.ip 20 float_0_6 5 Demo.three
           = Ok (Respond rs) ∧
         Forall (λ r, sr_id r ≠ 20) rs) ∧
  find_similar_questions Demo.embed Demo.ip 20 float_0_6 (-1) Demo.three
    = Raise AssertionError.
Proof.
  split.
  - destruct (find_similar_questions_excludes_itself Demo.embed Demo.ip 20
                float_0_6 5 Demo.three dense_three) as (_ & _ & Hknown).
    destruct (Hknown "q20" eq_refl) as [_ Hpos]; [done|].
    destruct Hpos as (found & _ & Hanswer & Hspec); [lia|].
    eexists. split; [exact Hanswer|].
    destruct (Hspec _ Hanswer) as (Hrs & _).
    apply Forall_forall. intros r Hr. by apply Hrs in Hr as (_ & ? & _).
  - destruct (find_similar_questions_excludes_itself Demo.embed Demo.ip 20
                float_0_6 (-1) Demo.three dense_three) as (_ & _ & Hknown).
    destruct (Hknown "q20" eq_refl) as [Hneg _]; [done|].
    apply Hneg. lia.
Defined.

Lemma query_on_dense_model_witness :
  query_request Demo.embed Demo.ip float_0_8
    {| req_query := "q20"; req_threshold := Some float_0_6; req_top_k := None |}
    Demo.three = Raise TypeError ∧
  query_request Demo.embed Demo.ip float_0_8
    {| req_query := "q20"; req_threshold := Some float_0_6; req_top_k := Some 0 |}
    Demo.three = Raise AssertionError ∧
  query_request Demo.embed Demo.ip float_0_8
    {| req_query := "q20"; req_threshold := None; req_top_k := Some 3 |}
    Demo.three = Raise TypeError ∧
  query_request Demo.embed Demo.ip float_0_8
    {| req_query := "q20"; req_threshold := None; req_top_k := Some 3 |}
    new_model = Ok (Alternatives []) ∧
  ∃ resp,
    query_request Demo.embed Demo.ip float_0_8
      {| req_query := "q20"; req_threshold := Some float_0_6;
         req_top_k := Some 3 |} Demo.three = Ok resp.
Proof.
  split_and!.
  - by apply (query_on_dense_model Demo.embed Demo.ip float_0_8 _ Demo.three
                dense_three).
  - apply (query_on_dense_model Demo.embed Demo.ip float_0_8 _ Demo.three
             dense_three) with (k := 0); [done|lia].
  - apply (query_on_dense_model Demo.embed Demo.ip float_0_8 _ Demo.three
             dense_three) with (k := 3); [done|lia|done..].
  - apply (query_on_dense_model Demo.embed Demo.ip float_0_8 _ new_model
             (dense_new_model (vec := string))) with (k := 3);
      [done|lia|done..].
  - destruct (query_on_dense_model Demo.embed Demo.ip float_0_8
                {| req_query := "q20"; req_threshold := Some float_0_6;
                   req_top_k := Some 3 |} Demo.three dense_three)
      as (_ & _ & _ & Hpresent).
    destruct (Hpresent 3 float_0_6) as (_ & resp & Hresp & _); [done|lia|done|].
    by exists resp.
Defined.

Lemma stored_check_kept_by_imports_erased_by_delete_witness :
  get_consistency_status
    (delete_faq "t6" 20
       (save_consistency_result "t4" "t5" initial_result Demo.three)).2 = NeverRun.
Proof.
  by apply (stored_check_kept_by_imports_erased_by_delete Demo.embed (λ _, "t")
              []).
Defined.

Lemma bulk_index_new_items_appended_witness :
  positions (bulk_index Demo.embed (λ _, "t4")
               [Demo.faq 40 "q40"; Demo.faq 50 "q50"] Demo.three).2
    = [(0, 10); (1, 20); (2, 30); (3, 40); (4, 50)].
Proof.
  destruct (bulk_index_new_items_appended Demo.embed (λ _, "t4")
              [Demo.faq 40 "q40"; Demo.faq 50 "q50"] Demo.three
              well_formed_three) as (_ & Hfaqs & _).
  - compute_done.
  - apply Forall_forall. compute_done.
  - unfold positions. by rewrite Hfaqs.
Defined.

Lemma perform_check_reaches_the_listing_witness :
  faiss_ids (perform_check Demo.embed (λ _, "t4")
               (HttpResponse 200 (inr [Demo.faq 10 "q10"; Demo.faq 50 "q50"]))
               Demo.three).1 = {[10; 50]}.
Proof.
  destruct (perform_check_reaches_the_listing Demo.embed (λ _, "t4")
              (λ _, "t5") [Demo.faq 10 "q10"; Demo.faq 50 "q50"] Demo.three
              well_formed_three) as (Hids & _).
  - compute_done.
  - rewrite Hids. simpl. set_solver.
Defined.

Lemma update_faq_writes_last_position_witness :
  (update_faq Demo.embed "t4" 21 (Demo.faq 20 "q20 again") Demo.three).2
    = Demo.three ∧
  ∃ idx, (update_faq Demo.embed "t4" 20 (Demo.faq 20 "q20 again") Demo.three).1
           = Respond (20, idx).
Proof.
  destruct (update_faq_writes_last_position Demo.embed "t4" "t5" 21
              (Demo.faq 20 "q20 again") Demo.three) as [Hbad _].
  destruct (update_faq_writes_last_position Demo.embed "t4" "t5" 20
              (Demo.faq 20 "q20 again") Demo.three) as [_ Hgood].
  split.
  - by rewrite Hbad.
  - destruct (Hgood eq_refl dense_three) as (idx & Hidx & _). by exists idx.
Defined.

Lemma reset_then_bulk_index_witness :
  fi_index <$>
    list_faiss_items 0 10
      (bulk_index Demo.embed (λ _, "t6") [Demo.faq 40 "q40"; Demo.faq 50 "q50"]
         (reset_faiss_index "t4" "t5" Demo.three)).2 = [0; 1].
Proof.
  destruct (reset_then_bulk_index Demo.embed (λ _, "t6")
              [Demo.faq 40 "q40"; Demo.faq 50 "q50"] "t4" "t5" 10 Demo.three)
    as (_ & Hpage & _).
  - compute_done.
  - lia.
  - by rewrite Hpage.
Defined.

Lemma dense_kept_by_every_write_witness :
  dense (delete_faq_endpoint "t4" 20 Demo.three).2 ∧
  dense (check_and_reindex Demo.embed (λ _, "t4") (HttpRaises "timeout")
           Demo.three).2.
Proof.
  destruct (dense_kept_by_every_write Demo.embed "t4" "t5" 20 (Demo.faq 20 "q20")
              (λ _, "t4") [] (HttpRaises "timeout") initial_result Demo.three)
    as (_ & _ & Hkeep).
  destruct (Hkeep dense_three) as (_ & _ & Hdel & _ & Hcheck & _).
  by split.
Defined.
